(** * IOIO application-layer protocol (firmware/app_layer_v1/protocol.c)

    A shallow embedding of the message decoder, the dispatcher and the
    transmit pump of [protocol.c], and the properties of the protocol
    specification established (or refuted) on it.

    Conventions.
    - A byte is a [Byte.byte]; a C value read from a message member is a [Z];
      sizes, offsets and byte counts are [nat] (the [int] counters of the file
      only ever hold table entries, 0, 1, and differences taken in the branch
      where they are non-negative).
    - A result of type [BYTE] is reduced modulo 256 where the source narrows.
    - The statics of the file form one [State] record that every function
      threads; the calls into other translation units are appended, in
      program order, to a [trace] carried by the state. *)

From Stdlib Require Import ZArith List Lia Bool Arith PeanoNat.
From Stdlib Require Import Strings.Byte.
Import ListNotations.

(* ===================================================================== *)
(** ** Bytes and the message buffer *)
(* ===================================================================== *)

Definition byte_of_nat (n : nat) : byte :=
  match Byte.of_nat n with
  | Some b => b
  | None => x00
  end.

Definition bytes_of (l : list nat) : list byte := map byte_of_nat l.

(** Static storage is zero-initialised; a buffer is the list of its leading
    bytes and reads as zero past its end.  The declared size of
    [INCOMING_MESSAGE] is in [protocol.h], taken here to be large enough for
    every message the tables describe. *)

(** [memcpy(((BYTE * ) dst) + off, src, length src)]; a copy of no bytes
    touches nothing. *)
Definition memcpy (dst : list byte) (off : nat) (src : list byte) : list byte :=
  match src with
  | [] => dst
  | _ :: _ => firstn off (dst ++ repeat x00 off) ++ src ++ skipn (off + length src) dst
  end.

(** The copy, for a source that is not empty. *)
Definition overwrite (dst : list byte) (off : nat) (src : list byte) : list byte :=
  firstn off (dst ++ repeat x00 off) ++ src ++ skipn (off + length src) dst.

(** The [n] bytes of [buf] starting at offset [off]. *)
Definition read_bytes (buf : list byte) (off n : nat) : list byte :=
  firstn n (skipn off buf ++ repeat x00 n).

(* ===================================================================== *)
(** ** protocol.h and board.h *)
(* ===================================================================== *)

(** Modelled from the spec: the message type enumeration of [protocol.h],
    which is not part of the sources at hand: a closed enumeration of 16
    values.  The numbering follows the two size tables of [protocol.c], which
    the source documents as indexed by the message type enum. *)
Inductive MESSAGE_TYPE : Set :=
| HARD_RESET
| SOFT_RESET
| SET_PIN_DIGITAL_OUT
| SET_DIGITAL_OUT_LEVEL
| SET_PIN_DIGITAL_IN
| SET_CHANGE_NOTIFY
| REGISTER_PERIODIC_DIGITAL_SAMPLING
| RESERVED
| SET_PIN_PWM
| SET_PWM_DUTY_CYCLE
| SET_PWM_PERIOD
| SET_PIN_ANALOG_IN
| UART_DATA
| UART_CONFIG
| SET_PIN_UART_RX
| SET_PIN_UART_TX.

Definition type_code (t : MESSAGE_TYPE) : nat :=
  match t with
  | HARD_RESET => 0
  | SOFT_RESET => 1
  | SET_PIN_DIGITAL_OUT => 2
  | SET_DIGITAL_OUT_LEVEL => 3
  | SET_PIN_DIGITAL_IN => 4
  | SET_CHANGE_NOTIFY => 5
  | REGISTER_PERIODIC_DIGITAL_SAMPLING => 6
  | RESERVED => 7
  | SET_PIN_PWM => 8
  | SET_PWM_DUTY_CYCLE => 9
  | SET_PWM_PERIOD => 10
  | SET_PIN_ANALOG_IN => 11
  | UART_DATA => 12
  | UART_CONFIG => 13
  | SET_PIN_UART_RX => 14
  | SET_PIN_UART_TX => 15
  end.

Definition all_types : list MESSAGE_TYPE :=
  [HARD_RESET; SOFT_RESET; SET_PIN_DIGITAL_OUT; SET_DIGITAL_OUT_LEVEL;
   SET_PIN_DIGITAL_IN; SET_CHANGE_NOTIFY; REGISTER_PERIODIC_DIGITAL_SAMPLING;
   RESERVED; SET_PIN_PWM; SET_PWM_DUTY_CYCLE; SET_PWM_PERIOD;
   SET_PIN_ANALOG_IN; UART_DATA; UART_CONFIG; SET_PIN_UART_RX;
   SET_PIN_UART_TX].

(** The enumerator a numeric tag stands for, if any. *)
Definition type_of_code (n : nat) : option MESSAGE_TYPE := nth_error all_types n.

Definition MESSAGE_TYPE_LIMIT : nat := 16.

(** [ESTABLISH_CONNECTION] shares the value of [HARD_RESET] in the outgoing
    direction (first entry of [outgoing_arg_size]). *)
Definition ESTABLISH_CONNECTION : nat := 0.

(** The argument structures whose [sizeof] fills the two tables. *)
Inductive ArgStruct : Set :=
| HARD_RESET_ARGS
| SOFT_RESET_ARGS
| SET_PIN_DIGITAL_OUT_ARGS
| SET_DIGITAL_OUT_LEVEL_ARGS
| SET_PIN_DIGITAL_IN_ARGS
| SET_CHANGE_NOTIFY_ARGS
| REGISTER_PERIODIC_DIGITAL_SAMPLING_ARGS
| RESERVED_ARGS
| SET_PIN_PWM_ARGS
| SET_PWM_DUTY_CYCLE_ARGS
| SET_PWM_PERIOD_ARGS
| SET_PIN_ANALOG_IN_ARGS
| UART_DATA_ARGS
| UART_CONFIG_ARGS
| SET_PIN_UART_RX_ARGS
| SET_PIN_UART_TX_ARGS
| ESTABLISH_CONNECTION_ARGS
| REPORT_DIGITAL_IN_STATUS_ARGS
| REPORT_ANALOG_IN_FORMAT_ARGS
| REPORT_ANALOG_IN_STATUS_ARGS
| UART_REPORT_TX_STATUS.

(** The members of [rx_msg.args] that [MessageDone] and [IncomingVarArgSize]
    read, named [<union member>_<field>]. *)
Inductive Field : Set :=
| hard_reset_magic
| set_pin_digital_out_pin
| set_pin_digital_out_value
| set_pin_digital_out_open_drain
| set_digital_out_level_pin
| set_digital_out_level_value
| set_pin_digital_in_pin
| set_pin_digital_in_pull
| set_change_notify_pin
| set_change_notify_cn
| set_pin_pwm_pin
| set_pin_pwm_pwm_num
| set_pwm_duty_cycle_pwm_num
| set_pwm_duty_cycle_dc
| set_pwm_duty_cycle_fraction
| set_pwm_period_pwm_num
| set_pwm_period_period
| set_pwm_period_scale256
| set_pin_analog_in_pin
| uart_data_uart_num
| uart_data_size
| uart_config_uart_num
| uart_config_rate
| uart_config_speed4x
| uart_config_two_stop_bits
| uart_config_parity
| set_pin_uart_rx_pin
| set_pin_uart_rx_uart_num
| set_pin_uart_rx_enable
| set_pin_uart_tx_pin
| set_pin_uart_tx_uart_num
| set_pin_uart_tx_enable.

(** The structure a member belongs to. *)
Definition field_struct (f : Field) : ArgStruct :=
  match f with
  | hard_reset_magic => HARD_RESET_ARGS
  | set_pin_digital_out_pin | set_pin_digital_out_value
  | set_pin_digital_out_open_drain => SET_PIN_DIGITAL_OUT_ARGS
  | set_digital_out_level_pin | set_digital_out_level_value =>
      SET_DIGITAL_OUT_LEVEL_ARGS
  | set_pin_digital_in_pin | set_pin_digital_in_pull => SET_PIN_DIGITAL_IN_ARGS
  | set_change_notify_pin | set_change_notify_cn => SET_CHANGE_NOTIFY_ARGS
  | set_pin_pwm_pin | set_pin_pwm_pwm_num => SET_PIN_PWM_ARGS
  | set_pwm_duty_cycle_pwm_num | set_pwm_duty_cycle_dc
  | set_pwm_duty_cycle_fraction => SET_PWM_DUTY_CYCLE_ARGS
  | set_pwm_period_pwm_num | set_pwm_period_period
  | set_pwm_period_scale256 => SET_PWM_PERIOD_ARGS
  | set_pin_analog_in_pin => SET_PIN_ANALOG_IN_ARGS
  | uart_data_uart_num | uart_data_size => UART_DATA_ARGS
  | uart_config_uart_num | uart_config_rate | uart_config_speed4x
  | uart_config_two_stop_bits | uart_config_parity => UART_CONFIG_ARGS
  | set_pin_uart_rx_pin | set_pin_uart_rx_uart_num
  | set_pin_uart_rx_enable => SET_PIN_UART_RX_ARGS
  | set_pin_uart_tx_pin | set_pin_uart_tx_uart_num
  | set_pin_uart_tx_enable => SET_PIN_UART_TX_ARGS
  end.

(** What [protocol.c] takes from the headers it includes: structure sizes and
    layouts ([protocol.h]), the magic constant, and the board limits
    ([board.h]).  None of these files is part of the sources at hand, so
    they are a parameter of the whole development. *)
Record Header : Type := {
  (** [sizeof(S)] *)
  sizeof : ArgStruct -> nat;
  (** the value of a member, read from the [sizeof] bytes of its structure *)
  field : Field -> list byte -> Z;
  (** [offsetof(UART_DATA_ARGS, data)] *)
  uart_data_data : nat;
  (** the bytes of an [ESTABLISH_CONNECTION_ARGS] with members
      [magic], [hardware], [bootloader], [firmware] *)
  establish_connection_args : Z -> Z -> Z -> Z -> list byte;
  IOIO_MAGIC : Z;
  NUM_PINS : Z;
  NUM_PWMS : Z;
  NUM_UARTS : Z
}.

(** The two status reports are built and sent by [digital.c] and [uart.c]
    (not part of the sources at hand); they reach the queue through
    [AppProtocolSendMessage].  The record gives the [OUTGOING_MESSAGE] each
    one passes, as a function of its argument. *)
Record Drivers : Type := {
  digital_in_status_message : Z -> list byte;
  uart_tx_status_message : Z -> list byte
}.

(* ===================================================================== *)
(** ** byte_queue.h *)
(* ===================================================================== *)

Module ByteQueue.

(** Modelled from the spec: [byte_queue.h] is absent.  The specification
    describes a byte ring buffer of bounded capacity, FIFO, whose peek hands
    out the contiguous span at its head without removing it, and leaves the
    policy on overflow open.  The queue is the list of resident bytes
    together with the position of its head in the ring; a push that does not
    fit has no defined result. *)
Record BYTE_QUEUE : Type := {
  read_cursor : nat;
  bytes : list byte
}.

(** Modelled from the spec: the reference capacity of the queue, as in
    [DEFINE_STATIC_BYTE_QUEUE(tx_queue, 1024)]. *)
Definition capacity : nat := 1024.

(** Modelled from the spec: [ByteQueueClear] empties the queue. *)
Definition Clear (q : BYTE_QUEUE) : BYTE_QUEUE :=
  {| read_cursor := 0; bytes := [] |}.

(** Modelled from the spec: [ByteQueuePushBuffer] appends the bytes behind
    those resident; what happens when they do not fit is left open by the
    specification, hence no result. *)
Definition PushBuffer (q : BYTE_QUEUE) (buf : list byte) : option BYTE_QUEUE :=
  if length (bytes q) + length buf <=? capacity
  then Some {| read_cursor := read_cursor q; bytes := bytes q ++ buf |}
  else None.

(** Modelled from the spec: [ByteQueuePull] removes [n] bytes from the
    front. *)
Definition Pull (q : BYTE_QUEUE) (n : nat) : BYTE_QUEUE :=
  {| read_cursor := (read_cursor q + n) mod capacity;
     bytes := skipn n (bytes q) |}.

(** Modelled from the spec: [ByteQueuePeek] returns, through [data] and
    [size], the contiguous span at the head of the ring, and removes
    nothing. *)
Definition Peek (q : BYTE_QUEUE) : list byte :=
  firstn (capacity - read_cursor q) (bytes q).

End ByteQueue.

Import ByteQueue.

(* ===================================================================== *)
(** ** Program state, observable calls, and the monad of the file *)
(* ===================================================================== *)

(** Calls that leave the translation unit. *)
Inductive Call : Type :=
| HardReset
| SoftReset
| SetPinDigitalOut (pin value open_drain : Z)
| SetDigitalOutLevel (pin value : Z)
| SetPinDigitalIn (pin pull : Z)
| SetChangeNotify (pin cn : Z)
| ReportDigitalInStatus (pin : Z)
| SetPinPwm (pin pwm_num : Z)
| SetPwmDutyCycle (pwm_num dc fraction : Z)
| SetPwmPeriod (pwm_num period scale256 : Z)
| SetPinAnalogIn (pin : Z)
| UARTTransmit (uart_num : Z) (data : list byte)
| UARTConfig (uart_num rate speed4x two_stop_bits parity : Z)
| UARTReportTxStatus (uart_num : Z)
| SetPinUartRx (pin uart_num enable : Z)
| SetPinUartTx (pin uart_num enable : Z)
| UARTTasks
| ADBWrite (data : list byte).

Inductive Event : Type :=
| Called (c : Call)
(** [MessageDone] was entered with [rx_msg] holding these bytes *)
| Dispatched (msg : list byte)
(** [AppProtocolSendMessage] pushed these bytes *)
| Sent (msg : list byte).

Inductive RX_MESSAGE_STATE : Set :=
| WAIT_TYPE
| WAIT_ARGS
| WAIT_VAR_ARGS.

Record State : Type := {
  tx_queue : BYTE_QUEUE;
  bytes_transmitted : nat;
  rx_msg : list byte;
  rx_buffer_cursor : nat;
  rx_message_remaining : nat;
  rx_message_state : RX_MESSAGE_STATE;
  trace : list Event
}.

(** Where the source has no defined behaviour. *)
Inductive fault : Set :=
(** one of the size tables read at an index it does not have *)
| TableIndexOutOfRange (index : nat)
(** a push that exceeds the capacity of [tx_queue] *)
| QueueOverflow
| OutOfFuel.

Inductive result (A : Type) : Type :=
| Ok (a : A) (s : State)
| Fault (f : fault).

Arguments Ok {A} a s.
Arguments Fault {A} f.

Definition M (A : Type) : Type := State -> result A.

Definition ret {A} (a : A) : M A := fun s => Ok a s.

Definition bind {A B} (m : M A) (k : A -> M B) : M B :=
  fun s =>
    match m s with
    | Ok a s' => k a s'
    | Fault f => Fault f
    end.

Definition raise {A} (f : fault) : M A := fun _ => Fault f.

Declare Scope prog_scope.
Delimit Scope prog_scope with prog.
Notation "x <- m ;; k" := (bind m (fun x => k))
  (at level 61, m at next level, right associativity) : prog_scope.
Notation "m ;; k" := (bind m (fun _ => k))
  (at level 61, right associativity) : prog_scope.
Local Open Scope prog_scope.

Definition get : M State := fun s => Ok s s.

Definition modify (f : State -> State) : M unit := fun s => Ok tt (f s).

Definition set_tx_queue (q : BYTE_QUEUE) (s : State) : State :=
  {| tx_queue := q;
     bytes_transmitted := bytes_transmitted s;
     rx_msg := rx_msg s;
     rx_buffer_cursor := rx_buffer_cursor s;
     rx_message_remaining := rx_message_remaining s;
     rx_message_state := rx_message_state s;
     trace := trace s |}.

Definition set_bytes_transmitted (n : nat) (s : State) : State :=
  {| tx_queue := tx_queue s;
     bytes_transmitted := n;
     rx_msg := rx_msg s;
     rx_buffer_cursor := rx_buffer_cursor s;
     rx_message_remaining := rx_message_remaining s;
     rx_message_state := rx_message_state s;
     trace := trace s |}.

Definition set_rx_msg (m : list byte) (s : State) : State :=
  {| tx_queue := tx_queue s;
     bytes_transmitted := bytes_transmitted s;
     rx_msg := m;
     rx_buffer_cursor := rx_buffer_cursor s;
     rx_message_remaining := rx_message_remaining s;
     rx_message_state := rx_message_state s;
     trace := trace s |}.

Definition set_rx_buffer_cursor (n : nat) (s : State) : State :=
  {| tx_queue := tx_queue s;
     bytes_transmitted := bytes_transmitted s;
     rx_msg := rx_msg s;
     rx_buffer_cursor := n;
     rx_message_remaining := rx_message_remaining s;
     rx_message_state := rx_message_state s;
     trace := trace s |}.

Definition set_rx_message_remaining (n : nat) (s : State) : State :=
  {| tx_queue := tx_queue s;
     bytes_transmitted := bytes_transmitted s;
     rx_msg := rx_msg s;
     rx_buffer_cursor := rx_buffer_cursor s;
     rx_message_remaining := n;
     rx_message_state := rx_message_state s;
     trace := trace s |}.

Definition set_rx_message_state (r : RX_MESSAGE_STATE) (s : State) : State :=
  {| tx_queue := tx_queue s;
     bytes_transmitted := bytes_transmitted s;
     rx_msg := rx_msg s;
     rx_buffer_cursor := rx_buffer_cursor s;
     rx_message_remaining := rx_message_remaining s;
     rx_message_state := r;
     trace := trace s |}.

Definition log (e : Event) (s : State) : State :=
  {| tx_queue := tx_queue s;
     bytes_transmitted := bytes_transmitted s;
     rx_msg := rx_msg s;
     rx_buffer_cursor := rx_buffer_cursor s;
     rx_message_remaining := rx_message_remaining s;
     rx_message_state := rx_message_state s;
     trace := trace s ++ [e] |}.

(** A call into another translation unit. *)
Definition call (c : Call) : M unit := modify (log (Called c)).

(** [ByteQueuePushBuffer(&tx_queue, buf, length buf)] *)
Definition push (buf : list byte) : M unit :=
  fun s =>
    match PushBuffer (tx_queue s) buf with
    | Some q => Ok tt (set_tx_queue q s)
    | None => Fault QueueOverflow
    end.

(** The state of the statics at program start. *)
Definition power_on : State :=
  {| tx_queue := {| read_cursor := 0; bytes := [] |};
     bytes_transmitted := 0;
     rx_msg := [];
     rx_buffer_cursor := 0;
     rx_message_remaining := 0;
     rx_message_state := WAIT_TYPE;
     trace := [] |}.

(* ===================================================================== *)
(** ** protocol.c *)
(* ===================================================================== *)

Section Protocol.

Variable hdr : Header.
Variable drv : Drivers.

(** [#define FIRMWARE_ID 0x00000001LL] *)
Definition FIRMWARE_ID : Z := 1.

(** An entry of a [const BYTE] table initialised with a [sizeof]. *)
Definition BYTE_of_size (n : nat) : nat := n mod 256.

Definition incoming_arg_size : list nat :=
  map (fun s => BYTE_of_size (sizeof hdr s))
    [HARD_RESET_ARGS;
     SOFT_RESET_ARGS;
     SET_PIN_DIGITAL_OUT_ARGS;
     SET_DIGITAL_OUT_LEVEL_ARGS;
     SET_PIN_DIGITAL_IN_ARGS;
     SET_CHANGE_NOTIFY_ARGS;
     REGISTER_PERIODIC_DIGITAL_SAMPLING_ARGS;
     RESERVED_ARGS;
     SET_PIN_PWM_ARGS;
     SET_PWM_DUTY_CYCLE_ARGS;
     SET_PWM_PERIOD_ARGS;
     SET_PIN_ANALOG_IN_ARGS;
     UART_DATA_ARGS;
     UART_CONFIG_ARGS;
     SET_PIN_UART_RX_ARGS;
     SET_PIN_UART_TX_ARGS].

Definition outgoing_arg_size : list nat :=
  map (fun s => BYTE_of_size (sizeof hdr s))
    [ESTABLISH_CONNECTION_ARGS;
     SOFT_RESET_ARGS;
     SET_PIN_DIGITAL_OUT_ARGS;
     REPORT_DIGITAL_IN_STATUS_ARGS;
     SET_PIN_DIGITAL_IN_ARGS;
     SET_CHANGE_NOTIFY_ARGS;
     REGISTER_PERIODIC_DIGITAL_SAMPLING_ARGS;
     RESERVED_ARGS;
     REPORT_ANALOG_IN_FORMAT_ARGS;
     REPORT_ANALOG_IN_STATUS_ARGS;
     UART_REPORT_TX_STATUS;
     SET_PIN_ANALOG_IN_ARGS;
     UART_DATA_ARGS;
     UART_CONFIG_ARGS;
     SET_PIN_UART_RX_ARGS;
     SET_PIN_UART_TX_ARGS].

(** [table[index]]; outside the table the read is undefined. *)
Definition table_read (table : list nat) (index : nat) : M nat :=
  match nth_error table index with
  | Some n => ret n
  | None => raise (TableIndexOutOfRange index)
  end.

(** [msg->type]: the tag is the first byte of a message (the decoder copies
    exactly one byte for it, at offset 0, and the arguments right after). *)
Definition msg_type (msg : list byte) : nat := Byte.to_nat (nth 0 msg x00).

(** [msg->args.<member>], read from the bytes that follow the tag. *)
Definition msg_field (f : Field) (msg : list byte) : Z :=
  field hdr f (read_bytes msg 1 (sizeof hdr (field_struct f))).

(** [msg->args.uart_data.data], as the [n] bytes found there. *)
Definition msg_uart_data (msg : list byte) (n : nat) : list byte :=
  read_bytes msg (1 + uart_data_data hdr) n.

(** [static inline BYTE OutgoingMessageLength(const OUTGOING_MESSAGE* msg)] *)
Definition OutgoingMessageLength (msg : list byte) : M nat :=
  n <- table_read outgoing_arg_size (msg_type msg) ;;
  ret ((1 + n) mod 256).

(** [static inline BYTE IncomingVarArgSize(const INCOMING_MESSAGE* msg)] *)
Definition IncomingVarArgSize (msg : list byte) : nat :=
  match type_of_code (msg_type msg) with
  | Some UART_DATA => Z.to_nat ((msg_field uart_data_size msg + 1) mod 256)
  | _ => 0
  end.

(** [void AppProtocolSendMessage(const OUTGOING_MESSAGE* msg)]; the lock
    brackets a critical section and has no effect in a sequential run. *)
Definition AppProtocolSendMessage (msg : list byte) : M unit :=
  len <- OutgoingMessageLength msg ;;
  push (read_bytes msg 0 len) ;;
  modify (log (Sent (read_bytes msg 0 len))).

(** [void AppProtocolSendMessageWithVarArg(msg, data, size)] *)
Definition AppProtocolSendMessageWithVarArg (msg data : list byte) : M unit :=
  len <- OutgoingMessageLength msg ;;
  push (read_bytes msg 0 len) ;;
  push data ;;
  modify (log (Sent (read_bytes msg 0 len ++ data))).

(** [void AppProtocolInit(ADB_CHANNEL_HANDLE h)] *)
Definition AppProtocolInit : M unit :=
  modify (set_bytes_transmitted 0) ;;
  modify (set_rx_buffer_cursor 0) ;;
  modify (set_rx_message_remaining 1) ;;
  modify (set_rx_message_state WAIT_TYPE) ;;
  modify (fun s => set_tx_queue (Clear (tx_queue s)) s) ;;
  AppProtocolSendMessage
    (byte_of_nat ESTABLISH_CONNECTION
       :: establish_connection_args hdr (IOIO_MAGIC hdr) 0 1 FIRMWARE_ID).

(** The block guarded by [ADBChannelReady(h)] in [AppProtocolTasks]. *)
Definition TransmitPump : M unit :=
  s <- get ;;
  (if bytes_transmitted s =? 0 then ret tt
   else
     modify (fun s => set_tx_queue (Pull (tx_queue s) (bytes_transmitted s)) s) ;;
     modify (set_bytes_transmitted 0)) ;;
  s <- get ;;
  let data := Peek (tx_queue s) in
  let size := length data in
  if 0 <? size then
    call (ADBWrite data) ;;
    modify (set_bytes_transmitted size)
  else ret tt.


(** [static void Echo()] *)
Definition Echo : M unit :=
  s <- get ;;
  AppProtocolSendMessage (rx_msg s).

(** [#define CHECK(cond)]: log and [return FALSE] when [cond] fails. *)
Definition CHECK (cond : bool) (k : M bool) : M bool :=
  if cond then k else ret false.

(** Modelled from the spec: [ReportDigitalInStatus] of [digital.c] (absent)
    reports the current digital-in status of the pin as an outgoing
    message. *)
Definition report_digital_in_status (pin : Z) : M unit :=
  call (ReportDigitalInStatus pin) ;;
  AppProtocolSendMessage (digital_in_status_message drv pin).

(** Modelled from the spec: [UARTReportTxStatus] of [uart.c] (absent) reports
    the current TX status of the UART as an outgoing message. *)
Definition report_uart_tx_status (uart_num : Z) : M unit :=
  call (UARTReportTxStatus uart_num) ;;
  AppProtocolSendMessage (uart_tx_status_message drv uart_num).

(** [static BOOL MessageDone()] *)
Definition MessageDone : M bool :=
  s <- get ;;
  let m := rx_msg s in
  let rx f := msg_field f m in
  modify (log (Dispatched m)) ;;
  match type_of_code (msg_type m) with
  | Some HARD_RESET =>
      CHECK (rx hard_reset_magic =? IOIO_MAGIC hdr)%Z
        (call HardReset ;;
         ret true)
  | Some SOFT_RESET =>
      call SoftReset ;;
      Echo ;;
      ret true
  | Some SET_PIN_DIGITAL_OUT =>
      CHECK (rx set_pin_digital_out_pin <? NUM_PINS hdr)%Z
        (call (SetPinDigitalOut (rx set_pin_digital_out_pin)
                 (rx set_pin_digital_out_value)
                 (rx set_pin_digital_out_open_drain)) ;;
         Echo ;;
         ret true)
  | Some SET_DIGITAL_OUT_LEVEL =>
      CHECK (rx set_digital_out_level_pin <? NUM_PINS hdr)%Z
        (call (SetDigitalOutLevel (rx set_digital_out_level_pin)
                 (rx set_digital_out_level_value)) ;;
         ret true)
  | Some SET_PIN_DIGITAL_IN =>
      CHECK (rx set_pin_digital_in_pin <? NUM_PINS hdr)%Z
        (CHECK (rx set_pin_digital_in_pull <? 3)%Z
           (call (SetPinDigitalIn (rx set_pin_digital_in_pin)
                    (rx set_pin_digital_in_pull)) ;;
            Echo ;;
            ret true))
  | Some SET_CHANGE_NOTIFY =>
      CHECK (rx set_change_notify_pin <? NUM_PINS hdr)%Z
        (call (SetChangeNotify (rx set_change_notify_pin)
                 (rx set_change_notify_cn)) ;;
         Echo ;;
         (if (rx set_change_notify_cn =? 0)%Z then ret tt
          else report_digital_in_status (rx set_change_notify_pin)) ;;
         ret true)
  | Some SET_PIN_PWM =>
      CHECK (rx set_pin_pwm_pin <? NUM_PINS hdr)%Z
        (CHECK ((rx set_pin_pwm_pwm_num <? NUM_PWMS hdr)%Z
                || (rx set_pin_pwm_pwm_num =? 15)%Z)
           (call (SetPinPwm (rx set_pin_pwm_pin) (rx set_pin_pwm_pwm_num)) ;;
            ret true))
  | Some SET_PWM_DUTY_CYCLE =>
      CHECK (rx set_pwm_duty_cycle_pwm_num <? NUM_PWMS hdr)%Z
        (call (SetPwmDutyCycle (rx set_pwm_duty_cycle_pwm_num)
                 (rx set_pwm_duty_cycle_dc)
                 (rx set_pwm_duty_cycle_fraction)) ;;
         ret true)
  | Some SET_PWM_PERIOD =>
      CHECK (rx set_pwm_period_pwm_num <? NUM_PWMS hdr)%Z
        (call (SetPwmPeriod (rx set_pwm_period_pwm_num)
                 (rx set_pwm_period_period)
                 (rx set_pwm_period_scale256)) ;;
         ret true)
  | Some SET_PIN_ANALOG_IN =>
      CHECK (rx set_pin_analog_in_pin <? NUM_PINS hdr)%Z
        (call (SetPinAnalogIn (rx set_pin_analog_in_pin)) ;;
         Echo ;;
         ret true)
  | Some UART_DATA =>
      CHECK (rx uart_data_uart_num <? NUM_UARTS hdr)%Z
        (call (UARTTransmit (rx uart_data_uart_num)
                 (msg_uart_data m (Z.to_nat (rx uart_data_size + 1)))) ;;
         ret true)
  | Some UART_CONFIG =>
      CHECK (rx uart_config_uart_num <? NUM_UARTS hdr)%Z
        (CHECK (rx uart_config_parity <? 3)%Z
           (call (UARTConfig (rx uart_config_uart_num)
                    (rx uart_config_rate)
                    (rx uart_config_speed4x)
                    (rx uart_config_two_stop_bits)
                    (rx uart_config_parity)) ;;
            Echo ;;
            report_uart_tx_status (rx uart_config_uart_num) ;;
            ret true))
  | Some SET_PIN_UART_RX =>
      CHECK (rx set_pin_uart_rx_pin <? NUM_PINS hdr)%Z
        (CHECK (rx set_pin_uart_rx_uart_num <? NUM_UARTS hdr)%Z
           (call (SetPinUartRx (rx set_pin_uart_rx_pin)
                    (rx set_pin_uart_rx_uart_num)
                    (rx set_pin_uart_rx_enable)) ;;
            Echo ;;
            ret true))
  | Some SET_PIN_UART_TX =>
      CHECK (rx set_pin_uart_tx_pin <? NUM_PINS hdr)%Z
        (CHECK (rx set_pin_uart_tx_uart_num <? NUM_UARTS hdr)%Z
           (call (SetPinUartTx (rx set_pin_uart_tx_pin)
                    (rx set_pin_uart_tx_uart_num)
                    (rx set_pin_uart_tx_enable)) ;;
            Echo ;;
            ret true))
  | _ => ret false
  end.

(** The three arms of the [switch (rx_message_state)], innermost first; each
    arm falls through to the next when nothing is left to wait for.  The
    value is [false] for [return FALSE] and [true] for [break]. *)
Definition case_WAIT_VAR_ARGS : M bool :=
  modify (set_rx_message_state WAIT_TYPE) ;;
  modify (set_rx_message_remaining 1) ;;
  modify (set_rx_buffer_cursor 0) ;;
  MessageDone.

Definition case_WAIT_ARGS : M bool :=
  modify (set_rx_message_state WAIT_VAR_ARGS) ;;
  modify (fun s => set_rx_message_remaining (IncomingVarArgSize (rx_msg s)) s) ;;
  s <- get ;;
  if rx_message_remaining s =? 0 then case_WAIT_VAR_ARGS else ret true.

Definition case_WAIT_TYPE : M bool :=
  modify (set_rx_message_state WAIT_ARGS) ;;
  s <- get ;;
  n <- table_read incoming_arg_size (msg_type (rx_msg s)) ;;
  modify (set_rx_message_remaining n) ;;
  if n =? 0 then case_WAIT_ARGS else ret true.

Definition change_state : M bool :=
  s <- get ;;
  match rx_message_state s with
  | WAIT_TYPE => case_WAIT_TYPE
  | WAIT_ARGS => case_WAIT_ARGS
  | WAIT_VAR_ARGS => case_WAIT_VAR_ARGS
  end.

(** The copy at the head of the loop body: the bytes taken from [data] land
    in [rx_msg] at the cursor; the rest of [data] is returned. *)
Definition copy_chunk (data : list byte) : M (list byte) :=
  s <- get ;;
  let remaining := rx_message_remaining s in
  if remaining <=? length data then
    modify (set_rx_msg (memcpy (rx_msg s) (rx_buffer_cursor s) (firstn remaining data))) ;;
    modify (set_rx_buffer_cursor (rx_buffer_cursor s + remaining)) ;;
    modify (set_rx_message_remaining 0) ;;
    ret (skipn remaining data)
  else
    modify (set_rx_msg (memcpy (rx_msg s) (rx_buffer_cursor s) data)) ;;
    modify (set_rx_buffer_cursor (rx_buffer_cursor s + length data)) ;;
    modify (set_rx_message_remaining (remaining - length data)) ;;
    ret [].

(** [while (data_len > 0) { ... }  return TRUE;] *)
Fixpoint handle_loop (fuel : nat) (data : list byte) : M bool :=
  match data with
  | [] => ret true
  | _ :: _ =>
      match fuel with
      | O => raise OutOfFuel
      | S fuel' =>
          rest <- copy_chunk data ;;
          s <- get ;;
          if rx_message_remaining s =? 0 then
            go_on <- change_state ;;
            if go_on then handle_loop fuel' rest else ret false
          else handle_loop fuel' rest
      end
  end.

(** [BOOL AppProtocolHandleIncoming(const BYTE* data, UINT32 data_len)].
    Every turn but the first takes at least one byte, so one turn more than
    there are bytes always suffices ([handle_loop_enough_fuel]). *)
Definition AppProtocolHandleIncoming (data : list byte) : M bool :=
  handle_loop (S (length data)) data.

End Protocol.

(* ===================================================================== *)
(** ** Derived notions used to state the properties *)
(* ===================================================================== *)

(** The decoder after [bs] has been copied at the cursor, no transition
    taken. *)
Definition advance (bs : list byte) (s : State) : State :=
  {| tx_queue := tx_queue s;
     bytes_transmitted := bytes_transmitted s;
     rx_msg := memcpy (rx_msg s) (rx_buffer_cursor s) bs;
     rx_buffer_cursor := rx_buffer_cursor s + length bs;
     rx_message_remaining := rx_message_remaining s - length bs;
     rx_message_state := rx_message_state s;
     trace := trace s |}.

(** Sequencing on the [BOOL] a call returns: go on after [TRUE], stop at
    [FALSE]. *)
Definition and_then (r : result bool) (k : M bool) : result bool :=
  match r with
  | Ok true s => k s
  | Ok false s => Ok false s
  | Fault f => Fault f
  end.

(** The decoder stands between two messages. *)
Definition at_boundary (s : State) : Prop :=
  rx_message_state s = WAIT_TYPE /\
  rx_message_remaining s = 1 /\
  rx_buffer_cursor s = 0.

(** The messages [MessageDone] was entered with, oldest first. *)
Fixpoint dispatched (t : list Event) : list (list byte) :=
  match t with
  | [] => []
  | Dispatched m :: t' => m :: dispatched t'
  | _ :: t' => dispatched t'
  end.

(** The bytes handed to [ADBWrite], oldest first. *)
Fixpoint written (t : list Event) : list byte :=
  match t with
  | [] => []
  | Called (ADBWrite d) :: t' => d ++ written t'
  | _ :: t' => written t'
  end.


Section Drivers.

Variable hdr : Header.
Variable drv : Drivers.

(** A caller that passes the chunks in order, one call each, whatever the
    calls return; the value is the list of the returned [BOOL]s. *)
Fixpoint feed_each (chunks : list (list byte)) : M (list bool) :=
  match chunks with
  | [] => ret []
  | c :: cs =>
      b <- AppProtocolHandleIncoming hdr drv c ;;
      bs <- feed_each cs ;;
      ret (b :: bs)
  end.

(** A caller that passes the chunks in order and stops at the first
    [FALSE]. *)
Fixpoint feed_chunks (chunks : list (list byte)) : M bool :=
  match chunks with
  | [] => ret true
  | c :: cs =>
      b <- AppProtocolHandleIncoming hdr drv c ;;
      if b then feed_chunks cs else ret false
  end.

End Drivers.

(** The state after a message of [bs] bytes has been sent. *)
Definition sent (bs : list byte) (s : State) : State :=
  log (Sent bs)
    (set_tx_queue {| read_cursor := read_cursor (tx_queue s);
                     bytes := bytes (tx_queue s) ++ bs |} s).

(** The decoder's own variables, and the in-flight count, are the same. *)
Definition same_decoder (s s' : State) : Prop :=
  rx_msg s' = rx_msg s /\
  rx_buffer_cursor s' = rx_buffer_cursor s /\
  rx_message_remaining s' = rx_message_remaining s /\
  rx_message_state s' = rx_message_state s /\
  bytes_transmitted s' = bytes_transmitted s.

(** The trace only grows. *)
Definition extends (s s' : State) : Prop :=
  exists t, trace s' = trace s ++ t.

(** Turns of the loop that [data] can take from [s], at most. *)
Definition fuel_needed (data : list byte) (s : State) : nat :=
  length data + (if rx_message_remaining s =? 0 then 1 else 0).

(** The state with the decoder put in a given phase. *)
Definition decoder_at (st : RX_MESSAGE_STATE) (remaining cursor : nat)
    (buf : list byte) (s : State) : State :=
  {| tx_queue := tx_queue s;
     bytes_transmitted := bytes_transmitted s;
     rx_msg := buf;
     rx_buffer_cursor := cursor;
     rx_message_remaining := remaining;
     rx_message_state := st;
     trace := trace s |}.

(** The state in which [MessageDone] is entered once the bytes [msg] of one
    message have been received from between two messages. *)
Definition received (msg : list byte) (s : State) : State :=
  decoder_at WAIT_TYPE 1 0 (memcpy (rx_msg s) 0 msg) s.

(** The messages passed to [AppProtocolSendMessage], oldest first. *)
Fixpoint sent_messages (t : list Event) : list (list byte) :=
  match t with
  | [] => []
  | Sent m :: t' => m :: sent_messages t'
  | _ :: t' => sent_messages t'
  end.

(** The calls that produce a status report. *)
Definition is_report (c : Call) : bool :=
  match c with
  | ReportDigitalInStatus _ | UARTReportTxStatus _ => true
  | _ => false
  end.

(** The types the dispatcher echoes. *)
Definition is_echo_type (t : MESSAGE_TYPE) : bool :=
  match t with
  | SOFT_RESET | SET_PIN_DIGITAL_OUT | SET_PIN_DIGITAL_IN | SET_CHANGE_NOTIFY
  | SET_PIN_ANALOG_IN | UART_CONFIG | SET_PIN_UART_RX | SET_PIN_UART_TX => true
  | _ => false
  end.

(** The structure [incoming_arg_size] takes the size of, per type. *)
Definition incoming_args (t : MESSAGE_TYPE) : ArgStruct :=
  match t with
  | HARD_RESET => HARD_RESET_ARGS
  | SOFT_RESET => SOFT_RESET_ARGS
  | SET_PIN_DIGITAL_OUT => SET_PIN_DIGITAL_OUT_ARGS
  | SET_DIGITAL_OUT_LEVEL => SET_DIGITAL_OUT_LEVEL_ARGS
  | SET_PIN_DIGITAL_IN => SET_PIN_DIGITAL_IN_ARGS
  | SET_CHANGE_NOTIFY => SET_CHANGE_NOTIFY_ARGS
  | REGISTER_PERIODIC_DIGITAL_SAMPLING => REGISTER_PERIODIC_DIGITAL_SAMPLING_ARGS
  | RESERVED => RESERVED_ARGS
  | SET_PIN_PWM => SET_PIN_PWM_ARGS
  | SET_PWM_DUTY_CYCLE => SET_PWM_DUTY_CYCLE_ARGS
  | SET_PWM_PERIOD => SET_PWM_PERIOD_ARGS
  | SET_PIN_ANALOG_IN => SET_PIN_ANALOG_IN_ARGS
  | UART_DATA => UART_DATA_ARGS
  | UART_CONFIG => UART_CONFIG_ARGS
  | SET_PIN_UART_RX => SET_PIN_UART_RX_ARGS
  | SET_PIN_UART_TX => SET_PIN_UART_TX_ARGS
  end.

(** The validation column of the specification's per-type contract, on the
    members of a message [m]; the two slots without a handler, like any
    undeclared type, fail. *)
Definition spec_validation (hdr : Header) (t : MESSAGE_TYPE) (m : list byte) : bool :=
  let rx f := msg_field hdr f m in
  match t with
  | HARD_RESET => (rx hard_reset_magic =? IOIO_MAGIC hdr)%Z
  | SOFT_RESET => true
  | SET_PIN_DIGITAL_OUT => (rx set_pin_digital_out_pin <? NUM_PINS hdr)%Z
  | SET_DIGITAL_OUT_LEVEL => (rx set_digital_out_level_pin <? NUM_PINS hdr)%Z
  | SET_PIN_DIGITAL_IN =>
      (rx set_pin_digital_in_pin <? NUM_PINS hdr)%Z
      && (rx set_pin_digital_in_pull <? 3)%Z
  | SET_CHANGE_NOTIFY => (rx set_change_notify_pin <? NUM_PINS hdr)%Z
  | REGISTER_PERIODIC_DIGITAL_SAMPLING => false
  | RESERVED => false
  | SET_PIN_PWM =>
      (rx set_pin_pwm_pin <? NUM_PINS hdr)%Z
      && ((rx set_pin_pwm_pwm_num <? NUM_PWMS hdr)%Z
          || (rx set_pin_pwm_pwm_num =? 15)%Z)
  | SET_PWM_DUTY_CYCLE => (rx set_pwm_duty_cycle_pwm_num <? NUM_PWMS hdr)%Z
  | SET_PWM_PERIOD => (rx set_pwm_period_pwm_num <? NUM_PWMS hdr)%Z
  | SET_PIN_ANALOG_IN => (rx set_pin_analog_in_pin <? NUM_PINS hdr)%Z
  | UART_DATA => (rx uart_data_uart_num <? NUM_UARTS hdr)%Z
  | UART_CONFIG =>
      (rx uart_config_uart_num <? NUM_UARTS hdr)%Z
      && (rx uart_config_parity <? 3)%Z
  | SET_PIN_UART_RX =>
      (rx set_pin_uart_rx_pin <? NUM_PINS hdr)%Z
      && (rx set_pin_uart_rx_uart_num <? NUM_UARTS hdr)%Z
  | SET_PIN_UART_TX =>
      (rx set_pin_uart_tx_pin <? NUM_PINS hdr)%Z
      && (rx set_pin_uart_tx_uart_num <? NUM_UARTS hdr)%Z
  end.

(** The state a run ends in ([d] if it does not end in one). *)
Definition state_of {A} (r : result A) (d : State) : State :=
  match r with
  | Ok _ s => s
  | Fault _ => d
  end.

(* ===================================================================== *)
(** ** A header to run the scenarios on *)
(* ===================================================================== *)

Module Sample.

Definition byte_at (i : nat) (args : list byte) : Z :=
  Z.of_nat (Byte.to_nat (nth i args x00)).

Definition byte_of_Z (z : Z) : byte := byte_of_nat (Z.to_nat (z mod 256)).

(** Four bytes, least significant first. *)
Definition le32 (args : list byte) : Z :=
  (byte_at 0 args + 256 * byte_at 1 args + 65536 * byte_at 2 args
   + 16777216 * byte_at 3 args)%Z.

Definition le32_bytes (z : Z) : list byte :=
  [byte_of_Z z; byte_of_Z (z / 256); byte_of_Z (z / 65536);
   byte_of_Z (z / 16777216)].

Definition struct_size (s : ArgStruct) : nat :=
  match s with
  | HARD_RESET_ARGS => 4
  | SOFT_RESET_ARGS => 0
  | SET_PIN_DIGITAL_OUT_ARGS => 3
  | SET_DIGITAL_OUT_LEVEL_ARGS => 2
  | SET_PIN_DIGITAL_IN_ARGS => 2
  | SET_CHANGE_NOTIFY_ARGS => 2
  | REGISTER_PERIODIC_DIGITAL_SAMPLING_ARGS => 0
  | RESERVED_ARGS => 0
  | SET_PIN_PWM_ARGS => 2
  | SET_PWM_DUTY_CYCLE_ARGS => 3
  | SET_PWM_PERIOD_ARGS => 3
  | SET_PIN_ANALOG_IN_ARGS => 1
  | UART_DATA_ARGS => 2
  | UART_CONFIG_ARGS => 5
  | SET_PIN_UART_RX_ARGS => 3
  | SET_PIN_UART_TX_ARGS => 3
  | ESTABLISH_CONNECTION_ARGS => 7
  | REPORT_DIGITAL_IN_STATUS_ARGS => 2
  | REPORT_ANALOG_IN_FORMAT_ARGS => 1
  | REPORT_ANALOG_IN_STATUS_ARGS => 1
  | UART_REPORT_TX_STATUS => 2
  end.

(** The position of a member in its structure. *)
Definition field_index (f : Field) : nat :=
  match f with
  | hard_reset_magic => 0
  | set_pin_digital_out_pin => 0
  | set_pin_digital_out_value => 1
  | set_pin_digital_out_open_drain => 2
  | set_digital_out_level_pin => 0
  | set_digital_out_level_value => 1
  | set_pin_digital_in_pin => 0
  | set_pin_digital_in_pull => 1
  | set_change_notify_pin => 0
  | set_change_notify_cn => 1
  | set_pin_pwm_pin => 0
  | set_pin_pwm_pwm_num => 1
  | set_pwm_duty_cycle_pwm_num => 0
  | set_pwm_duty_cycle_dc => 1
  | set_pwm_duty_cycle_fraction => 2
  | set_pwm_period_pwm_num => 0
  | set_pwm_period_period => 1
  | set_pwm_period_scale256 => 2
  | set_pin_analog_in_pin => 0
  | uart_data_uart_num => 0
  | uart_data_size => 1
  | uart_config_uart_num => 0
  | uart_config_rate => 1
  | uart_config_speed4x => 2
  | uart_config_two_stop_bits => 3
  | uart_config_parity => 4
  | set_pin_uart_rx_pin => 0
  | set_pin_uart_rx_uart_num => 1
  | set_pin_uart_rx_enable => 2
  | set_pin_uart_tx_pin => 0
  | set_pin_uart_tx_uart_num => 1
  | set_pin_uart_tx_enable => 2
  end.

(** Modelled from the spec: [protocol.h] and [board.h] are absent.  The
    specification gives the members of each message in wire order and the
    size field of the data-transfer message as one byte; here every member
    takes one byte, in that order, except the magic, which takes four (least
    significant first).  The magic and the board limits are arbitrary. *)
Definition header : Header :=
  {| sizeof := struct_size;
     field := fun f args =>
                match f with
                | hard_reset_magic => le32 args
                | _ => byte_at (field_index f) args
                end;
     uart_data_data := 2;
     establish_connection_args :=
       fun magic hardware bootloader firmware =>
         le32_bytes magic
           ++ [byte_of_Z hardware; byte_of_Z bootloader; byte_of_Z firmware];
     IOIO_MAGIC := 1330204489;
     NUM_PINS := 49;
     NUM_PWMS := 9;
     NUM_UARTS := 4 |}.

(** Modelled from the spec: [digital.c] and [uart.c] are absent.  The
    reports are outgoing messages of the types that share the values 3 and 10
    ([outgoing_arg_size] entries [REPORT_DIGITAL_IN_STATUS_ARGS] and
    [UART_REPORT_TX_STATUS]); the level and the status they carry are taken
    to be 0. *)
Definition drivers : Drivers :=
  {| digital_in_status_message := fun pin => [byte_of_nat 3; byte_of_Z pin; x00];
     uart_tx_status_message := fun uart_num => [byte_of_nat 10; byte_of_Z uart_num; x00] |}.

(** The state right after [AppProtocolInit] on a fresh device. *)
Definition connected : State :=
  state_of (AppProtocolInit header power_on) power_on.

(** The same two ticks of the pump later: the connection message has been
    written and freed, the queue is empty. *)
Definition idle : State :=
  state_of (TransmitPump (state_of (TransmitPump connected) power_on)) power_on.

End Sample.

(* ===================================================================== *)
(** ** Notions for the properties of the code beyond the specification *)
(* ===================================================================== *)

(** Where the cursor may stand in each phase while [remaining] bytes are
    awaited: the tag is one byte, an argument block is a [BYTE] table entry, a
    trailer is a [BYTE] as well. *)
Definition within (st : RX_MESSAGE_STATE) (cursor remaining : nat) : Prop :=
  match st with
  | WAIT_TYPE => cursor + remaining = 1
  | WAIT_ARGS => 1 <= cursor /\ cursor + remaining <= 256
  | WAIT_VAR_ARGS => 1 <= cursor /\ cursor + remaining <= 511
  end.

(** The decoder awaits something, and what it awaits fits the first 511 bytes
    of [rx_msg]. *)
Definition decoder_inv (s : State) : Prop :=
  1 <= rx_message_remaining s
  /\ within (rx_message_state s) (rx_buffer_cursor s) (rx_message_remaining s).

(** A message on the wire: tag, fixed argument block, variable trailer. *)
Record Message : Type := {
  tag : byte;
  args : list byte;
  trailer : list byte
}.

Definition message_bytes (m : Message) : list byte :=
  tag m :: args m ++ trailer m.



(** The hardware actions in a trace: the calls that are neither a status
    report nor part of the transmit path. *)
Fixpoint actions (t : list Event) : nat :=
  match t with
  | [] => 0
  | Called c :: t' =>
      match c with
      | ReportDigitalInStatus _ | UARTReportTxStatus _ | UARTTasks
      | ADBWrite _ => actions t'
      | _ => S (actions t')
      end
  | _ :: t' => actions t'
  end.


(** From [s] to [s'] the queue has only been appended to, by the messages
    sent in between; nothing was pulled or written and the in-flight count is
    the same. *)
Definition appends (s s' : State) : Prop :=
  exists t,
    trace s' = trace s ++ t
    /\ bytes (tx_queue s') = bytes (tx_queue s) ++ concat (sent_messages t)
    /\ read_cursor (tx_queue s') = read_cursor (tx_queue s)
    /\ bytes_transmitted s' = bytes_transmitted s
    /\ written t = [].


Section Framing.

Variable hdr : Header.
Variable drv : Drivers.

(** The trailer length [IncomingVarArgSize] computes for a tag and its
    argument block. *)
Definition trailer_length (t : byte) (a : list byte) : nat :=
  match type_of_code (Byte.to_nat t) with
  | Some UART_DATA => Z.to_nat ((field hdr uart_data_size a + 1) mod 256)
  | _ => 0
  end.

(** A message is framed as the tables say: the argument block has the length
    of the incoming table entry of its tag (which, for [UART_DATA], is the
    whole structure), and the trailer the length computed from it. *)
Definition well_framed (m : Message) : bool :=
  match nth_error (incoming_arg_size hdr) (Byte.to_nat (tag m)) with
  | Some n =>
      (length (args m) =? n)
      && (length (trailer m) =? trailer_length (tag m) (args m))
      && match type_of_code (Byte.to_nat (tag m)) with
         | Some UART_DATA => length (args m) =? sizeof hdr UART_DATA_ARGS
         | _ => true
         end
  | None => false
  end.

(** [MessageDone] on each message in turn, each received whole from between
    two messages, up to the first [FALSE]. *)
Fixpoint dispatch_each (ms : list Message) : M bool :=
  match ms with
  | [] => ret true
  | m :: ms' =>
      fun s =>
        and_then (MessageDone hdr drv (received (message_bytes m) s))
          (dispatch_each ms')
  end.


End Framing.

(* ===================================================================== *)
(** * Properties *)
(* ===================================================================== *)

(** ** Lists and buffers *)

Lemma firstn_app_exact {A} (l1 l2 : list A) (k : nat) :
  firstn (length l1 + k) (l1 ++ l2) = l1 ++ firstn k l2.
Proof.
  rewrite firstn_app, firstn_all2 by lia.
  f_equal. f_equal. lia.
Qed.

Lemma skipn_app_exact {A} (l1 l2 : list A) (k : nat) :
  skipn (length l1 + k) (l1 ++ l2) = skipn k l2.
Proof.
  rewrite skipn_app, skipn_all2 by lia.
  simpl. f_equal. lia.
Qed.

Lemma firstn_short_app {A} (l1 l2 : list A) (k : nat) :
  k <= length l1 -> firstn k (l1 ++ l2) = firstn k l1.
Proof.
  intros Hk. rewrite firstn_app.
  replace (k - length l1) with 0 by lia.
  simpl. apply app_nil_r.
Qed.

Lemma skipn_short_app {A} (l1 l2 : list A) (k : nat) :
  k <= length l1 -> skipn k (l1 ++ l2) = skipn k l1 ++ l2.
Proof.
  intros Hk. rewrite skipn_app.
  replace (k - length l1) with 0 by lia.
  reflexivity.
Qed.

Lemma padded_prefix_length (d : list byte) (c : nat) :
  length (firstn c (d ++ repeat x00 c)) = c.
Proof.
  rewrite length_firstn, length_app, repeat_length. lia.
Qed.

Lemma firstn_exact {A} (l1 l2 : list A) (n : nat) :
  length l1 = n -> firstn n (l1 ++ l2) = l1.
Proof.
  intros <-. rewrite <- (Nat.add_0_r (length l1)), firstn_app_exact.
  simpl. apply app_nil_r.
Qed.

Lemma skipn_exact {A} (l1 l2 : list A) (n k : nat) :
  length l1 = n -> skipn (n + k) (l1 ++ l2) = skipn k l2.
Proof.
  intros <-. apply skipn_app_exact.
Qed.

Lemma memcpy_overwrite (d : list byte) (c : nat) (src : list byte) :
  src <> [] -> memcpy d c src = overwrite d c src.
Proof.
  destruct src; [congruence | reflexivity].
Qed.

Lemma overwrite_app (d : list byte) (c : nat) (a b : list byte) :
  overwrite (overwrite d c a) (c + length a) b = overwrite d c (a ++ b).
Proof.
  unfold overwrite.
  set (p := firstn c (d ++ repeat x00 c)).
  set (x := skipn (c + length a) d).
  assert (Hpa : length (p ++ a) = c + length a).
  { rewrite length_app. unfold p. rewrite padded_prefix_length. reflexivity. }
  assert (E1 : firstn (c + length a) ((p ++ a ++ x) ++ repeat x00 (c + length a))
               = p ++ a).
  { rewrite (app_assoc p a x), <- app_assoc. apply firstn_exact, Hpa. }
  assert (E2 : skipn (c + length a + length b) (p ++ a ++ x)
               = skipn (c + length (a ++ b)) d).
  { rewrite (app_assoc p a x), (skipn_exact _ _ _ _ Hpa).
    unfold x. rewrite skipn_skipn, length_app. f_equal. lia. }
  rewrite E1, E2, <- !app_assoc. reflexivity.
Qed.

(** Copying [a] and then [b] right behind it is copying [a ++ b]. *)
Lemma memcpy_app (d : list byte) (c : nat) (a b : list byte) :
  memcpy (memcpy d c a) (c + length a) b = memcpy d c (a ++ b).
Proof.
  destruct a as [| x a'].
  - cbn [memcpy app length]. rewrite Nat.add_0_r. reflexivity.
  - destruct b as [| y b'].
    + rewrite app_nil_r. reflexivity.
    + rewrite !memcpy_overwrite by (try discriminate; destruct a'; discriminate).
      apply overwrite_app.
Qed.

(** ** Stepping through the monad *)

(** Case analysis on whatever a computation among the hypotheses branches
    on, until none branches any more. *)
Ltac branch :=
  match goal with
  | H : context [match ?x with _ => _ end] |- _ =>
      destruct x eqn:?; cbv beta iota in *; try discriminate
  end.

Ltac run_in H :=
  unfold CHECK, call, bind, get, modify, ret, raise in H;
  cbv beta iota in H;
  repeat branch;
  try discriminate H.

Section Sending.

Variable hdr : Header.

Lemma push_inv (buf : list byte) (s : State) (u : unit) (s' : State) :
  push buf s = Ok u s' ->
  s' = set_tx_queue {| read_cursor := read_cursor (tx_queue s);
                       bytes := bytes (tx_queue s) ++ buf |} s
  /\ length (bytes (tx_queue s)) + length buf <= capacity.
Proof.
  unfold push, PushBuffer. intros H.
  destruct (length (bytes (tx_queue s)) + length buf <=? capacity) eqn:E;
    [| discriminate].
  apply Nat.leb_le in E. inversion H. auto.
Qed.

Lemma push_fits (buf : list byte) (s : State) :
  length (bytes (tx_queue s)) + length buf <= capacity ->
  push buf s = Ok tt (set_tx_queue {| read_cursor := read_cursor (tx_queue s);
                                      bytes := bytes (tx_queue s) ++ buf |} s).
Proof.
  intros H. unfold push, PushBuffer.
  apply Nat.leb_le in H. rewrite H. reflexivity.
Qed.

Lemma read_bytes_length (buf : list byte) (off n : nat) :
  length (read_bytes buf off n) = n.
Proof.
  unfold read_bytes. rewrite length_firstn, length_app, repeat_length. lia.
Qed.

(** What a successful [AppProtocolSendMessage] has done. *)
Lemma AppProtocolSendMessage_inv (msg : list byte) (s : State) (u : unit) (s' : State) :
  AppProtocolSendMessage hdr msg s = Ok u s' ->
  exists n,
    nth_error (outgoing_arg_size hdr) (msg_type msg) = Some n
    /\ s' = sent (read_bytes msg 0 ((1 + n) mod 256)) s
    /\ length (bytes (tx_queue s)) + (1 + n) mod 256 <= capacity.
Proof.
  unfold AppProtocolSendMessage, OutgoingMessageLength, table_read.
  intros H.
  destruct (nth_error (outgoing_arg_size hdr) (msg_type msg)) as [n |] eqn:En.
  - exists n. unfold bind, ret, modify in H.
    destruct (push (read_bytes msg 0 ((1 + n) mod 256)) s) as [[] s1 |] eqn:Ep;
      [| discriminate].
    apply push_inv in Ep. destruct Ep as [-> Hlen].
    rewrite read_bytes_length in Hlen.
    inversion H. auto.
  - discriminate.
Qed.

Lemma AppProtocolSendMessage_fits (msg : list byte) (s : State) (n : nat) :
  nth_error (outgoing_arg_size hdr) (msg_type msg) = Some n ->
  length (bytes (tx_queue s)) + (1 + n) mod 256 <= capacity ->
  AppProtocolSendMessage hdr msg s
  = Ok tt (sent (read_bytes msg 0 ((1 + n) mod 256)) s).
Proof.
  intros En Hlen.
  unfold AppProtocolSendMessage, OutgoingMessageLength, table_read.
  rewrite En. unfold bind, ret, modify.
  rewrite push_fits by (rewrite read_bytes_length; exact Hlen).
  reflexivity.
Qed.

End Sending.

(** Inversion of every successful send among the hypotheses. *)
Ltac send_inv :=
  repeat match goal with
    | H : AppProtocolSendMessage _ _ _ = Ok _ _ |- _ =>
        apply AppProtocolSendMessage_inv in H;
        destruct H as (? & ? & ? & ?)
    | H : Ok _ _ = Ok _ _ |- _ => injection H; clear H; intros
    end;
  subst.

Section Frames.

Variable hdr : Header.
Variable drv : Drivers.

(** [MessageDone] leaves the decoder alone and records the dispatch first. *)
Lemma MessageDone_frame (s : State) (b : bool) (s' : State) :
  MessageDone hdr drv s = Ok b s' ->
  same_decoder s s'
  /\ exists t, trace s' = trace s ++ Dispatched (rx_msg s) :: t.
Proof.
  intros H. unfold MessageDone, Echo, report_digital_in_status,
    report_uart_tx_status in H.
  run_in H; send_inv; cbn;
    (split; [repeat split |]);
    rewrite <- ?app_assoc; cbn; eexists; reflexivity.
Qed.

(** A dispatch that reports failure has called nothing and sent nothing. *)
Lemma MessageDone_false (s s' : State) :
  MessageDone hdr drv s = Ok false s' ->
  s' = log (Dispatched (rx_msg s)) s.
Proof.
  intros H. unfold MessageDone, Echo, report_digital_in_status,
    report_uart_tx_status in H.
  run_in H; send_inv; reflexivity.
Qed.

End Frames.

(** ** The decoder loop *)

Section Decoder.

Variable hdr : Header.
Variable drv : Drivers.

Lemma copy_chunk_spec (data : list byte) (s : State) :
  let k := Nat.min (rx_message_remaining s) (length data) in
  copy_chunk data s = Ok (skipn k data) (advance (firstn k data) s).
Proof.
  unfold copy_chunk, bind, get, modify, ret. cbv beta iota zeta.
  destruct (rx_message_remaining s <=? length data) eqn:E.
  - apply Nat.leb_le in E. rewrite Nat.min_l by exact E.
    unfold advance, set_rx_msg, set_rx_buffer_cursor, set_rx_message_remaining.
    cbn. rewrite length_firstn, Nat.min_l by exact E.
    rewrite Nat.sub_diag. reflexivity.
  - apply Nat.leb_gt in E. rewrite Nat.min_r by lia.
    rewrite firstn_all, skipn_all.
    reflexivity.
Qed.

(** After a transition that lets the loop go on, something is awaited. *)
Lemma change_state_remaining (s s' : State) :
  change_state hdr drv s = Ok true s' -> 1 <= rx_message_remaining s'.
Proof.
  intros H.
  unfold change_state, case_WAIT_TYPE, case_WAIT_ARGS, case_WAIT_VAR_ARGS,
    table_read in H.
  run_in H;
    repeat match goal with
      | H : MessageDone _ _ _ = Ok _ _ |- _ =>
          apply MessageDone_frame in H;
          destruct H as [(_ & _ & Hr & _ & _) _]; rewrite Hr
      | H : Ok _ _ = Ok _ _ |- _ => inversion H; subst; clear H
      | H : (_ =? _) = false |- _ => apply Nat.eqb_neq in H
      end;
    cbn in *; lia.
Qed.

(** A failing transition is a failing dispatch, and leaves the decoder
    between two messages. *)
Lemma change_state_false (s s' : State) :
  change_state hdr drv s = Ok false s' ->
  at_boundary s'
  /\ exists s0, trace s0 = trace s /\ MessageDone hdr drv s0 = Ok false s'.
Proof.
  intros H.
  unfold change_state, case_WAIT_TYPE, case_WAIT_ARGS, case_WAIT_VAR_ARGS,
    table_read in H.
  run_in H;
    repeat match goal with
      | H : Ok _ _ = Ok _ _ |- _ => inversion H; subst; clear H
      end;
    match goal with
    | H : MessageDone _ _ ?s0 = Ok false _ |- _ =>
        split;
        [ apply MessageDone_frame in H;
          destruct H as [(_ & Hc & Hr & Hs & _) _];
          unfold at_boundary; rewrite Hc, Hr, Hs; cbn; auto
        | exists s0; split; [reflexivity | exact H] ]
    end.
Qed.

Lemma handle_loop_nil (n : nat) (s : State) :
  handle_loop hdr drv n [] s = Ok true s.
Proof. destruct n; reflexivity. Qed.

(** One turn of the loop on a non-empty input. *)
Lemma handle_loop_step (n : nat) (data : list byte) (s : State) :
  data <> [] ->
  handle_loop hdr drv (S n) data s
  = let k := Nat.min (rx_message_remaining s) (length data) in
    let s1 := advance (firstn k data) s in
    if rx_message_remaining s1 =? 0 then
      and_then (change_state hdr drv s1) (handle_loop hdr drv n (skipn k data))
    else handle_loop hdr drv n (skipn k data) s1.
Proof.
  intros Hne. destruct data as [| x data']; [congruence |].
  cbn [handle_loop]. unfold bind at 1.
  rewrite copy_chunk_spec. cbv zeta.
  unfold bind at 1, get at 1.
  destruct (rx_message_remaining _ =? 0); [| reflexivity].
  unfold bind, and_then.
  destruct (change_state hdr drv _) as [[|] s2 |]; reflexivity.
Qed.

Lemma fuel_after_step (data : list byte) (s s2 : State) (n : nat) :
  let k := Nat.min (rx_message_remaining s) (length data) in
  fuel_needed data s <= S n ->
  rx_message_remaining (advance (firstn k data) s) = 0 ->
  1 <= rx_message_remaining s2 ->
  fuel_needed (skipn k data) s2 <= n.
Proof.
  intros k Hn H1 H2. unfold fuel_needed in *.
  rewrite length_skipn.
  unfold advance in H1. cbn [rx_message_remaining] in H1.
  rewrite length_firstn in H1.
  destruct (rx_message_remaining s2 =? 0) eqn:E2;
    [apply Nat.eqb_eq in E2; lia |].
  destruct (rx_message_remaining s =? 0) eqn:E0.
  - lia.
  - apply Nat.eqb_neq in E0. unfold k in *. lia.
Qed.

Lemma rest_after_partial (data : list byte) (s : State) :
  let k := Nat.min (rx_message_remaining s) (length data) in
  rx_message_remaining (advance (firstn k data) s) <> 0 ->
  skipn k data = [].
Proof.
  intros k H. unfold advance in H. cbn [rx_message_remaining] in H.
  rewrite length_firstn in H.
  apply skipn_all2. unfold k in *. lia.
Qed.

(** With enough fuel the loop does not depend on it. *)
Lemma handle_loop_fuel (n m : nat) :
  forall (data : list byte) (s : State),
    fuel_needed data s <= n -> fuel_needed data s <= m ->
    handle_loop hdr drv n data s = handle_loop hdr drv m data s.
Proof.
  revert m. induction n as [| n IH]; intros m data s Hn Hm.
  - destruct data; [destruct m; reflexivity
                   | unfold fuel_needed in Hn; cbn in Hn; lia].
  - destruct data as [| x data']; [destruct m; reflexivity |].
    destruct m as [| m]; [unfold fuel_needed in Hm; cbn in Hm; lia |].
    rewrite !handle_loop_step by discriminate. cbv zeta.
    destruct (rx_message_remaining _ =? 0) eqn:E1.
    + apply Nat.eqb_eq in E1. unfold and_then.
      destruct (change_state hdr drv _) as [[|] s2 |] eqn:Ec;
        try reflexivity.
      apply change_state_remaining in Ec.
      apply IH; eapply fuel_after_step; eauto.
    + apply Nat.eqb_neq in E1.
      rewrite (rest_after_partial _ _ E1). rewrite !handle_loop_nil. reflexivity.
Qed.

(** Nothing but the loop itself can report lack of fuel. *)
Ltac no_fuel_fault :=
  repeat match goal with
    | H : Fault _ = Fault _ |- _ => inversion H; subst; clear H
    | H : Ok _ _ = Ok _ _ |- _ => inversion H; subst; clear H
    end;
  try discriminate;
  try match goal with
    | H : ?m = Fault OutOfFuel, L : forall s, _ <> Fault OutOfFuel |- _ =>
        exact (L _ H)
    end.

Lemma AppProtocolSendMessage_fuel (msg : list byte) (s : State) :
  AppProtocolSendMessage hdr msg s <> Fault OutOfFuel.
Proof.
  intros H.
  unfold AppProtocolSendMessage, OutgoingMessageLength, table_read, push in H.
  run_in H; no_fuel_fault.
Qed.

Lemma MessageDone_fuel (s : State) :
  MessageDone hdr drv s <> Fault OutOfFuel.
Proof.
  intros H.
  unfold MessageDone, Echo, report_digital_in_status,
    report_uart_tx_status in H.
  run_in H; no_fuel_fault;
    match goal with
    | H : AppProtocolSendMessage _ _ _ = Fault OutOfFuel |- _ =>
        exact (AppProtocolSendMessage_fuel _ _ H)
    end.
Qed.

Lemma change_state_fuel (s : State) :
  change_state hdr drv s <> Fault OutOfFuel.
Proof.
  intros H.
  unfold change_state, case_WAIT_TYPE, case_WAIT_ARGS,
    case_WAIT_VAR_ARGS, table_read in H.
  run_in H; no_fuel_fault;
    match goal with
    | H : MessageDone _ _ _ = Fault OutOfFuel |- _ =>
        exact (MessageDone_fuel _ H)
    end.
Qed.

(** The loop always has the fuel it is given by [AppProtocolHandleIncoming]:
    the call returns, or reaches undefined behaviour of the source; it never
    stops for lack of fuel. *)
Lemma handle_loop_enough_fuel (n : nat) :
  forall (data : list byte) (s : State),
    fuel_needed data s <= n ->
    handle_loop hdr drv n data s <> Fault OutOfFuel.
Proof.
  induction n as [| n IH]; intros data s Hn.
  - destruct data; [discriminate | unfold fuel_needed in Hn; cbn in Hn; lia].
  - destruct data as [| x data']; [discriminate |].
    rewrite handle_loop_step by discriminate. cbv zeta.
    destruct (rx_message_remaining _ =? 0) eqn:E1.
    + apply Nat.eqb_eq in E1. unfold and_then.
      destruct (change_state hdr drv _) as [[|] s2 | f] eqn:Ec.
      * apply change_state_remaining in Ec.
        apply IH. eapply fuel_after_step; eauto.
      * discriminate.
      * intros Hf. inversion Hf. subst f.
        exact (change_state_fuel _ Ec).
    + apply Nat.eqb_neq in E1.
      rewrite (rest_after_partial _ _ E1). destruct n; discriminate.
Qed.

Lemma HandleIncoming_nil (s : State) :
  AppProtocolHandleIncoming hdr drv [] s = Ok true s.
Proof. reflexivity. Qed.

(** The loop, one turn unfolded, without fuel. *)
Lemma HandleIncoming_step (data : list byte) (s : State) :
  data <> [] ->
  AppProtocolHandleIncoming hdr drv data s
  = let k := Nat.min (rx_message_remaining s) (length data) in
    let s1 := advance (firstn k data) s in
    if rx_message_remaining s1 =? 0 then
      and_then (change_state hdr drv s1)
        (AppProtocolHandleIncoming hdr drv (skipn k data))
    else Ok true s1.
Proof.
  intros Hne. unfold AppProtocolHandleIncoming at 1.
  rewrite handle_loop_step by exact Hne. cbv zeta.
  assert (Hfuel : fuel_needed data s <= S (length data)).
  { unfold fuel_needed. destruct (_ =? 0); lia. }
  destruct (rx_message_remaining _ =? 0) eqn:E1.
  - apply Nat.eqb_eq in E1. unfold and_then.
    destruct (change_state hdr drv _) as [[|] s2 |] eqn:Ec; try reflexivity.
    apply change_state_remaining in Ec.
    unfold AppProtocolHandleIncoming.
    apply handle_loop_fuel.
    + eapply fuel_after_step; eauto.
    + unfold fuel_needed.
      destruct (rx_message_remaining s2 =? 0) eqn:E2;
        [apply Nat.eqb_eq in E2; lia | lia].
  - apply Nat.eqb_neq in E1.
    rewrite (rest_after_partial _ _ E1), handle_loop_nil. reflexivity.
Qed.

(** A call returns, or reaches undefined behaviour of the source. *)
Lemma HandleIncoming_total (data : list byte) (s : State) :
  AppProtocolHandleIncoming hdr drv data s <> Fault OutOfFuel.
Proof.
  apply handle_loop_enough_fuel.
  unfold fuel_needed. destruct (_ =? 0); lia.
Qed.

Lemma advance_app (a b : list byte) (s : State) :
  advance b (advance a s) = advance (a ++ b) s.
Proof.
  unfold advance. cbn.
  rewrite memcpy_app, length_app, Nat.add_assoc, Nat.sub_add_distr.
  reflexivity.
Qed.

Lemma advance_nil (s : State) : advance [] s = s.
Proof.
  destruct s. unfold advance. cbn.
  rewrite Nat.add_0_r, Nat.sub_0_r. reflexivity.
Qed.

(** A chunk that does not fill what is awaited is stored, and that is all. *)
Lemma HandleIncoming_partial (data : list byte) (s : State) :
  length data < rx_message_remaining s ->
  AppProtocolHandleIncoming hdr drv data s = Ok true (advance data s).
Proof.
  intros Hlt. destruct data as [| x data'].
  - rewrite HandleIncoming_nil, advance_nil. reflexivity.
  - rewrite HandleIncoming_step by discriminate. cbv zeta.
    rewrite Nat.min_r by lia. rewrite firstn_all.
    destruct (rx_message_remaining _ =? 0) eqn:E; [| reflexivity].
    apply Nat.eqb_eq in E. unfold advance in E. cbn in E. cbn in Hlt. lia.
Qed.

(** Feeding [a ++ b] is feeding [a] and, unless that reported failure,
    feeding [b]. *)
Lemma HandleIncoming_app_bounded (n : nat) :
  forall (a b : list byte) (s : State),
    fuel_needed a s <= n ->
    AppProtocolHandleIncoming hdr drv (a ++ b) s
    = and_then (AppProtocolHandleIncoming hdr drv a s)
        (AppProtocolHandleIncoming hdr drv b).
Proof.
  induction n as [| n IH]; intros a b s Hn.
  - destruct a; [reflexivity | unfold fuel_needed in Hn; cbn in Hn; lia].
  - destruct a as [| x a']; [reflexivity |].
    set (a := x :: a') in *.
    assert (Ha : a <> []) by discriminate.
    assert (Hab : a ++ b <> []) by discriminate.
    destruct (Nat.le_gt_cases (rx_message_remaining s) (length a)) as [Hle | Hgt].
    + (* the awaited bytes all come from [a] *)
      rewrite (HandleIncoming_step _ s Hab), (HandleIncoming_step _ s Ha). cbv zeta.
      rewrite length_app.
      rewrite !Nat.min_l by lia.
      rewrite firstn_short_app, skipn_short_app by exact Hle.
      destruct (rx_message_remaining _ =? 0) eqn:E1.
      * apply Nat.eqb_eq in E1.
        unfold and_then at 1 3.
        destruct (change_state hdr drv _) as [[|] s2 |] eqn:Ec;
          try reflexivity.
        apply change_state_remaining in Ec.
        apply IH.
        pose proof (fuel_after_step a s s2 n) as F. cbv zeta in F.
        rewrite Nat.min_l in F by exact Hle.
        apply F; assumption.
      * apply Nat.eqb_neq in E1. unfold advance in E1. cbn in E1.
        rewrite length_firstn in E1. lia.
    + (* [a] ends inside what is awaited *)
      rewrite (HandleIncoming_partial a s Hgt). cbn [and_then].
      destruct b as [| y b'].
      { rewrite app_nil_r. apply HandleIncoming_partial. exact Hgt. }
      set (b := y :: b') in *.
      assert (Hb : b <> []) by discriminate.
      rewrite (HandleIncoming_step _ s Hab), (HandleIncoming_step _ (advance a s) Hb). cbv zeta.
      assert (Hrem : rx_message_remaining (advance a s)
                     = rx_message_remaining s - length a) by reflexivity.
      rewrite Hrem, length_app.
      set (k := Nat.min (rx_message_remaining s - length a) (length b)).
      replace (Nat.min (rx_message_remaining s) (length a + length b))
        with (length a + k) by (unfold k; lia).
      rewrite firstn_app_exact, skipn_app_exact, advance_app.
      reflexivity.
Qed.

Lemma HandleIncoming_app (a b : list byte) (s : State) :
  AppProtocolHandleIncoming hdr drv (a ++ b) s
  = and_then (AppProtocolHandleIncoming hdr drv a s)
      (AppProtocolHandleIncoming hdr drv b).
Proof.
  exact (HandleIncoming_app_bounded _ a b s (le_n (fuel_needed a s))).
Qed.

End Decoder.

(** ** Fragmentation *)

Section Fragmentation.

Variable hdr : Header.
Variable drv : Drivers.

(** A caller that stops at the first failure sees, chunk by chunk, what one
    call on the whole stream does, whatever the stream. *)
Lemma feed_chunks_concat (chunks : list (list byte)) :
  forall s : State,
    feed_chunks hdr drv chunks s
    = AppProtocolHandleIncoming hdr drv (concat chunks) s.
Proof.
  induction chunks as [| c cs IH]; intros s.
  - reflexivity.
  - cbn [feed_chunks concat]. rewrite HandleIncoming_app.
    unfold bind, and_then.
    destruct (AppProtocolHandleIncoming hdr drv c s) as [[|] s1 |];
      [apply IH | reflexivity | reflexivity].
Qed.

Lemma feed_each_concat (chunks : list (list byte)) :
  forall s s' : State,
    AppProtocolHandleIncoming hdr drv (concat chunks) s = Ok true s' ->
    feed_each hdr drv chunks s = Ok (repeat true (length chunks)) s'.
Proof.
  induction chunks as [| c cs IH]; intros s s' H.
  - cbn in H. inversion H. reflexivity.
  - cbn [concat] in H. rewrite HandleIncoming_app in H.
    cbn [feed_each length repeat]. unfold bind.
    destruct (AppProtocolHandleIncoming hdr drv c s) as [[|] s1 |];
      cbn [and_then] in H; try discriminate.
    rewrite (IH s1 s' H). reflexivity.
Qed.

Lemma concat_singletons (data : list byte) :
  concat (map (fun b => [b]) data) = data.
Proof.
  induction data as [| b data IH]; [reflexivity |].
  cbn. rewrite IH. reflexivity.
Qed.

(** C1.  Decoding does not depend on how the stream is cut.  Whenever one
    call on a whole stream dispatches all its messages (it returns [TRUE] in
    state [s']), calling on each chunk of any chunking of the stream, in
    order, returns [TRUE] every time and ends in the very same state [s'],
    and so does calling on each byte of the stream in turn.  The state holds
    the trace, which records every entry into [MessageDone] with the bytes
    of [rx_msg], so the dispatched messages are the same, in the same
    order. *)
Theorem decoding_invariant_under_fragmentation
    (chunks : list (list byte)) (s s' : State) :
  AppProtocolHandleIncoming hdr drv (concat chunks) s = Ok true s' ->
  feed_each hdr drv chunks s = Ok (repeat true (length chunks)) s'
  /\ feed_each hdr drv (map (fun b => [b]) (concat chunks)) s
     = Ok (repeat true (length (map (fun b => [b]) (concat chunks)))) s'.
Proof.
  intros H. split.
  - apply feed_each_concat, H.
  - apply feed_each_concat. rewrite concat_singletons. exact H.
Qed.

End Fragmentation.

(** C1 on the scenario of the specification: a [SET_PIN_DIGITAL_OUT] for pin
    3, value 1, push-pull, followed by a [SOFT_RESET], cut in three. *)
Lemma decoding_invariant_under_fragmentation_witness :
  let chunks := [bytes_of [2; 3]; bytes_of [1]; bytes_of [0; 1]] in
  let s' := state_of (AppProtocolHandleIncoming Sample.header Sample.drivers
                        (concat chunks) Sample.connected) power_on in
  dispatched (trace s')
  = [bytes_of [2; 3; 1; 0]; bytes_of [1; 3; 1; 0]]
  /\ feed_each Sample.header Sample.drivers chunks Sample.connected
     = Ok [true; true; true] s'
  /\ feed_each Sample.header Sample.drivers
       (map (fun b => [b]) (concat chunks)) Sample.connected
     = Ok [true; true; true; true; true] s'.
Proof.
  split; [vm_compute; reflexivity |].
  apply (decoding_invariant_under_fragmentation
           Sample.header Sample.drivers
           [bytes_of [2; 3]; bytes_of [1]; bytes_of [0; 1]]).
  vm_compute. reflexivity.
Defined.

(** ** What a call can report, and when *)

Lemma dispatched_app (t1 t2 : list Event) :
  dispatched (t1 ++ t2) = dispatched t1 ++ dispatched t2.
Proof.
  induction t1 as [| e t1 IH]; [reflexivity |].
  destruct e; cbn; rewrite IH; reflexivity.
Qed.

Section Outcomes.

Variable hdr : Header.
Variable drv : Drivers.

Lemma extends_refl (s : State) : extends s s.
Proof. exists []. symmetry. apply app_nil_r. Qed.

Lemma extends_trans (s1 s2 s3 : State) :
  extends s1 s2 -> extends s2 s3 -> extends s1 s3.
Proof.
  intros [t1 H1] [t2 H2]. exists (t1 ++ t2).
  rewrite H2, H1. symmetry. apply app_assoc.
Qed.

Lemma change_state_extends (s : State) (b : bool) (s' : State) :
  change_state hdr drv s = Ok b s' -> extends s s'.
Proof.
  intros H.
  unfold change_state, case_WAIT_TYPE, case_WAIT_ARGS, case_WAIT_VAR_ARGS,
    table_read in H.
  run_in H;
    repeat match goal with
      | H : Ok _ _ = Ok _ _ |- _ => inversion H; subst; clear H
      end;
    first
      [ match goal with
        | H : MessageDone _ _ _ = Ok _ _ |- _ =>
            apply MessageDone_frame in H; destruct H as [_ [t Ht]];
            eexists; rewrite Ht; cbn; reflexivity
        end
      | exists []; cbn; symmetry; apply app_nil_r ].
Qed.

(** Induction along the turns of the loop. *)
Lemma HandleIncoming_ind (P : list byte -> State -> result bool -> Prop) :
  (forall s, P [] s (Ok true s)) ->
  (forall data s,
      data <> [] ->
      let k := Nat.min (rx_message_remaining s) (length data) in
      let s1 := advance (firstn k data) s in
      rx_message_remaining s1 <> 0 ->
      P data s (Ok true s1)) ->
  (forall data s,
      data <> [] ->
      let k := Nat.min (rx_message_remaining s) (length data) in
      let s1 := advance (firstn k data) s in
      rx_message_remaining s1 = 0 ->
      (forall f, change_state hdr drv s1 = Fault f -> P data s (Fault f))
      /\ (forall s2, change_state hdr drv s1 = Ok false s2 ->
                     P data s (Ok false s2))
      /\ (forall s2, change_state hdr drv s1 = Ok true s2 ->
                     P (skipn k data) s2
                       (AppProtocolHandleIncoming hdr drv (skipn k data) s2) ->
                     P data s
                       (AppProtocolHandleIncoming hdr drv (skipn k data) s2))) ->
  forall data s, P data s (AppProtocolHandleIncoming hdr drv data s).
Proof.
  intros Hnil Hpart Hstep data s.
  remember (fuel_needed data s) as n eqn:En.
  assert (Hn : fuel_needed data s <= n) by lia. clear En.
  revert data s Hn. induction n as [| n IH]; intros data s Hn.
  - destruct data; [apply Hnil | unfold fuel_needed in Hn; cbn in Hn; lia].
  - destruct data as [| x data']; [apply Hnil |].
    set (data := x :: data') in *.
    assert (Hne : data <> []) by discriminate.
    rewrite (HandleIncoming_step hdr drv data s Hne). cbv zeta.
    destruct (rx_message_remaining _ =? 0) eqn:E1.
    + apply Nat.eqb_eq in E1.
      destruct (Hstep data s Hne E1) as (Hf & Hfalse & Htrue).
      unfold and_then.
      destruct (change_state hdr drv _) as [[|] s2 | f] eqn:Ec.
      * apply Htrue; [reflexivity |].
        apply IH. apply change_state_remaining in Ec.
        eapply fuel_after_step; eauto.
      * apply Hfalse. reflexivity.
      * apply Hf. reflexivity.
    + apply Nat.eqb_neq in E1. apply Hpart; assumption.
Qed.

Lemma HandleIncoming_extends (data : list byte) (s : State) :
  forall b s',
    AppProtocolHandleIncoming hdr drv data s = Ok b s' -> extends s s'.
Proof.
  apply (HandleIncoming_ind
           (fun data s r => forall b s', r = Ok b s' -> extends s s')).
  - intros s0 b s' H. inversion H. apply extends_refl.
  - intros data0 s0 _ k s1 _ b s' H. inversion H. subst.
    exists []. cbn. symmetry. apply app_nil_r.
  - intros data0 s0 _ k s1 _. split; [| split].
    + discriminate.
    + intros s2 Ec b s' H. inversion H. subst.
      apply change_state_extends in Ec. exact Ec.
    + intros s2 Ec IH b s' H.
      apply change_state_extends in Ec.
      eapply extends_trans; [exact Ec | eapply IH; exact H].
Qed.

(** [FALSE] comes from a transition, that is from [MessageDone]. *)
Lemma HandleIncoming_false (data : list byte) (s : State) :
  forall s',
    AppProtocolHandleIncoming hdr drv data s = Ok false s' ->
    exists s0, extends s s0 /\ MessageDone hdr drv s0 = Ok false s'
               /\ at_boundary s'.
Proof.
  apply (HandleIncoming_ind
           (fun data s r =>
              forall s', r = Ok false s' ->
                exists s0, extends s s0 /\ MessageDone hdr drv s0 = Ok false s'
                           /\ at_boundary s')).
  - discriminate.
  - discriminate.
  - intros data0 s0 _ k s1 _. split; [| split].
    + discriminate.
    + intros s2 Ec s' H. inversion H. subst.
      apply change_state_false in Ec.
      destruct Ec as [Hb (s3 & Ht & Hm)].
      exists s3. split; [| split; assumption].
      exists []. rewrite Ht. cbn. symmetry. apply app_nil_r.
    + intros s2 Ec IH s' H.
      destruct (IH s' H) as (s3 & Hext & Hm & Hb).
      exists s3. split; [| split; assumption].
      eapply extends_trans; [| exact Hext].
      apply change_state_extends in Ec.
      destruct Ec as [t Ht]. exists t. exact Ht.
Qed.

(** C10.  Input that ends inside a message is stored and answered [TRUE].
    A chunk shorter than what the decoder awaits (the empty chunk included)
    makes the call return [TRUE] with the bytes copied at the cursor, the
    counters moved by their number and the phase kept, and the next call
    continues the same message: feeding [rest] afterwards is feeding
    [data ++ rest] at once.  More generally a call during which no message
    completes (no new entry into [MessageDone]) cannot return [FALSE], and
    leaves the state from which the rest of the stream is decoded as if it
    had come in the same call.  [FALSE] is only ever the result of a
    [MessageDone] that returned [FALSE] at the completion of a message, and
    it leaves the decoder between two messages. *)
Theorem partial_message_returns_true (data : list byte) (s : State) :
  (length data < rx_message_remaining s ->
     AppProtocolHandleIncoming hdr drv data s = Ok true (advance data s)
     /\ rx_message_state (advance data s) = rx_message_state s
     /\ rx_message_remaining (advance data s)
        = rx_message_remaining s - length data
     /\ rx_buffer_cursor (advance data s) = rx_buffer_cursor s + length data
     /\ forall rest,
          AppProtocolHandleIncoming hdr drv (data ++ rest) s
          = AppProtocolHandleIncoming hdr drv rest (advance data s))
  /\ (forall b s',
        AppProtocolHandleIncoming hdr drv data s = Ok b s' ->
        dispatched (trace s') = dispatched (trace s) ->
        b = true
        /\ forall rest,
             AppProtocolHandleIncoming hdr drv (data ++ rest) s
             = AppProtocolHandleIncoming hdr drv rest s')
  /\ (forall s',
        AppProtocolHandleIncoming hdr drv data s = Ok false s' ->
        at_boundary s'
        /\ exists s0,
             MessageDone hdr drv s0 = Ok false s'
             /\ exists t,
                  trace s' = trace s ++ t ++ [Dispatched (rx_msg s0)]).
Proof.
  assert (Hfalse : forall s',
    AppProtocolHandleIncoming hdr drv data s = Ok false s' ->
    at_boundary s'
    /\ exists s0,
         MessageDone hdr drv s0 = Ok false s'
         /\ exists t, trace s' = trace s ++ t ++ [Dispatched (rx_msg s0)]).
  { intros s' H.
    destruct (HandleIncoming_false data s s' H) as (s0 & [t Ht] & Hm & Hb).
    split; [exact Hb |].
    exists s0. split; [exact Hm |].
    exists t. rewrite (MessageDone_false hdr drv s0 s' Hm). cbn.
    rewrite Ht, app_assoc. reflexivity. }
  split; [| split].
  - intros Hlt.
    pose proof (HandleIncoming_partial hdr drv data s Hlt) as Hp.
    repeat split; try assumption; try reflexivity.
    intros rest. rewrite HandleIncoming_app, Hp. reflexivity.
  - intros b s' H Hd.
    assert (Hb : b = true).
    { destruct b; [reflexivity |].
      destruct (Hfalse s' H) as (_ & s0 & _ & t & Ht).
      rewrite Ht, !dispatched_app in Hd. cbn in Hd.
      apply (f_equal (@length _)) in Hd.
      rewrite !length_app in Hd. cbn in Hd. lia. }
    split; [exact Hb |].
    intros rest. subst b. rewrite HandleIncoming_app, H. reflexivity.
  - exact Hfalse.
Qed.

(** C3, as the code has it.  When the dispatch of a completed message
    reports failure the call returns [FALSE] at once: whatever follows the
    failing message in the chunk is not looked at, the result and the state
    are those of the call on the bytes up to the failure.  The decoder is
    left between two messages. *)
Theorem failure_ends_the_call (pre rest : list byte) (s s' : State) :
  AppProtocolHandleIncoming hdr drv pre s = Ok false s' ->
  AppProtocolHandleIncoming hdr drv (pre ++ rest) s = Ok false s'
  /\ at_boundary s'.
Proof.
  intros H. split.
  - rewrite HandleIncoming_app, H. reflexivity.
  - destruct (HandleIncoming_false pre s s' H) as (_ & _ & _ & Hb). exact Hb.
Qed.

(** A tag the tables have no entry for is looked up all the same. *)
Lemma table_length : length (incoming_arg_size hdr) = MESSAGE_TYPE_LIMIT.
Proof. reflexivity. Qed.

(** C2 fails on the code: from between two messages, a chunk that starts
    with a tag at or above [MESSAGE_TYPE_LIMIT] makes the decoder read
    [incoming_arg_size] at that index, outside the table; no [FALSE] is
    returned before the read. *)
Theorem undeclared_type_indexes_the_table
    (tag : byte) (rest : list byte) (s : State) :
  at_boundary s ->
  MESSAGE_TYPE_LIMIT <= Byte.to_nat tag ->
  AppProtocolHandleIncoming hdr drv (tag :: rest) s
  = Fault (TableIndexOutOfRange (Byte.to_nat tag)).
Proof.
  intros (Hst & Hrem & Hcur) Htag.
  change (tag :: rest) with ([tag] ++ rest).
  rewrite HandleIncoming_app.
  rewrite HandleIncoming_step by discriminate. cbv zeta.
  rewrite Hrem. cbn [length Nat.min firstn].
  unfold advance at 1. cbn [rx_message_remaining length]. rewrite Hrem.
  cbn [Nat.sub Nat.eqb].
  unfold change_state, bind, get. unfold advance at 1.
  cbn [rx_message_state]. rewrite Hst.
  unfold case_WAIT_TYPE, bind, modify, get, table_read.
  cbn [rx_msg set_rx_message_state advance]. rewrite Hcur.
  cbn [memcpy]. unfold msg_type. cbn [firstn app nth].
  assert (Hnone : nth_error (incoming_arg_size hdr) (Byte.to_nat tag) = None).
  { apply nth_error_None. rewrite table_length. exact Htag. }
  rewrite Hnone. reflexivity.
Qed.

End Outcomes.

(** C2 on a concrete chunk: the single byte 16, right after initialisation. *)
Lemma undeclared_type_indexes_the_table_witness :
  AppProtocolHandleIncoming Sample.header Sample.drivers
    (bytes_of [16]) Sample.connected
  = Fault (TableIndexOutOfRange 16).
Proof.
  apply (undeclared_type_indexes_the_table Sample.header Sample.drivers
           (byte_of_nat 16) [] Sample.connected).
  - vm_compute. auto.
  - vm_compute. lia.
Defined.

(** C10 on a concrete input: the tag and the first argument byte of a
    [SET_PIN_DIGITAL_OUT] whose three argument bytes arrive one per call. *)
Lemma partial_message_returns_true_witness :
  let s1 := state_of (AppProtocolHandleIncoming Sample.header Sample.drivers
                        (bytes_of [2]) Sample.connected) power_on in
  AppProtocolHandleIncoming Sample.header Sample.drivers (bytes_of [3]) s1
  = Ok true (advance (bytes_of [3]) s1)
  /\ rx_message_remaining (advance (bytes_of [3]) s1) = 2.
Proof.
  cbv zeta.
  destruct (partial_message_returns_true Sample.header Sample.drivers
              (bytes_of [3])
              (state_of (AppProtocolHandleIncoming Sample.header Sample.drivers
                           (bytes_of [2]) Sample.connected) power_on))
    as [H _].
  assert (Hlt : length (bytes_of [3])
                < rx_message_remaining
                    (state_of (AppProtocolHandleIncoming Sample.header Sample.drivers
                                 (bytes_of [2]) Sample.connected) power_on))
    by (vm_compute; lia).
  destruct (H Hlt) as (H1 & _ & H3 & _).
  split; [exact H1 |].
  rewrite H3. vm_compute. reflexivity.
Defined.

(** C3 on a concrete input: a [HARD_RESET] with a wrong magic, followed in the
    same chunk by a [SOFT_RESET] that is never looked at. *)
Lemma failure_ends_the_call_witness :
  let s' := state_of (AppProtocolHandleIncoming Sample.header Sample.drivers
                        (bytes_of [0; 1; 2; 3; 4]) Sample.connected) power_on in
  AppProtocolHandleIncoming Sample.header Sample.drivers
    (bytes_of [0; 1; 2; 3; 4] ++ bytes_of [1]) Sample.connected
  = Ok false s'
  /\ at_boundary s'.
Proof.
  apply (failure_ends_the_call Sample.header Sample.drivers
           (bytes_of [0; 1; 2; 3; 4]) (bytes_of [1]) Sample.connected).
  vm_compute. reflexivity.
Defined.

(** C3 as stated fails: after a call has returned [FALSE], and without any
    [AppProtocolInit], the next call decodes and dispatches.  Here a
    [HARD_RESET] with a wrong magic is followed, in a later chunk, by a
    [SOFT_RESET], which is dispatched, performed and echoed. *)
Lemma no_latch_after_failure :
  let s1 := state_of (AppProtocolHandleIncoming Sample.header Sample.drivers
                        (bytes_of [0; 1; 2; 3; 4]) Sample.connected) power_on in
  let s2 := state_of (AppProtocolHandleIncoming Sample.header Sample.drivers
                        (bytes_of [1]) s1) power_on in
  AppProtocolHandleIncoming Sample.header Sample.drivers
    (bytes_of [0; 1; 2; 3; 4]) Sample.connected = Ok false s1
  /\ AppProtocolHandleIncoming Sample.header Sample.drivers (bytes_of [1]) s1
     = Ok true s2
  /\ trace s2
     = trace s1 ++ [Dispatched (bytes_of [1; 1; 2; 3; 4]); Called SoftReset;
                    Sent (bytes_of [1])].
Proof.
  vm_compute. repeat split; reflexivity.
Defined.

(** ** Receiving one message *)

Section Receiving.

Variable hdr : Header.
Variable drv : Drivers.

Lemma at_boundary_decoder_at (s : State) :
  at_boundary s -> s = decoder_at WAIT_TYPE 1 0 (rx_msg s) s.
Proof.
  intros (Hst & Hrem & Hcur). destruct s. cbn in *. subst. reflexivity.
Qed.

Lemma and_then_nil (r : result bool) :
  and_then r (AppProtocolHandleIncoming hdr drv []) = r.
Proof. destruct r as [[|] s |]; reflexivity. Qed.

(** A chunk of exactly the awaited length is copied and followed by a
    transition. *)
Lemma HandleIncoming_exact (data : list byte) (st : RX_MESSAGE_STATE)
    (c : nat) (buf : list byte) (s : State) :
  data <> [] ->
  AppProtocolHandleIncoming hdr drv data (decoder_at st (length data) c buf s)
  = change_state hdr drv
      (decoder_at st 0 (c + length data) (memcpy buf c data) s).
Proof.
  intros Hne. rewrite HandleIncoming_step by exact Hne. cbv zeta.
  cbn [rx_message_remaining decoder_at].
  rewrite Nat.min_id, firstn_all, skipn_all.
  unfold advance. cbn [rx_message_remaining decoder_at tx_queue
    bytes_transmitted rx_msg rx_buffer_cursor rx_message_state trace].
  rewrite Nat.sub_diag. cbn [Nat.eqb].
  apply and_then_nil.
Qed.

Lemma case_WAIT_VAR_ARGS_at (st : RX_MESSAGE_STATE) (r c : nat)
    (buf : list byte) (s : State) :
  case_WAIT_VAR_ARGS hdr drv (decoder_at st r c buf s)
  = MessageDone hdr drv (decoder_at WAIT_TYPE 1 0 buf s).
Proof. reflexivity. Qed.

Lemma case_WAIT_ARGS_at (st : RX_MESSAGE_STATE) (r c : nat)
    (buf : list byte) (s : State) :
  case_WAIT_ARGS hdr drv (decoder_at st r c buf s)
  = if IncomingVarArgSize hdr buf =? 0
    then MessageDone hdr drv (decoder_at WAIT_TYPE 1 0 buf s)
    else Ok true (decoder_at WAIT_VAR_ARGS (IncomingVarArgSize hdr buf) c buf s).
Proof.
  unfold case_WAIT_ARGS, bind, modify, get.
  cbn [rx_message_remaining set_rx_message_remaining set_rx_message_state
         rx_msg decoder_at].
  destruct (IncomingVarArgSize hdr buf =? 0); reflexivity.
Qed.

Lemma case_WAIT_TYPE_at (st : RX_MESSAGE_STATE) (r c n : nat)
    (buf : list byte) (s : State) :
  nth_error (incoming_arg_size hdr) (msg_type buf) = Some n ->
  case_WAIT_TYPE hdr drv (decoder_at st r c buf s)
  = if n =? 0
    then case_WAIT_ARGS hdr drv (decoder_at WAIT_ARGS 0 c buf s)
    else Ok true (decoder_at WAIT_ARGS n c buf s).
Proof.
  intros Hn.
  unfold case_WAIT_TYPE, bind, modify, get, table_read.
  cbn [rx_msg set_rx_message_state decoder_at]. rewrite Hn.
  unfold ret. destruct (n =? 0) eqn:E; [| reflexivity].
  apply Nat.eqb_eq in E. subst n. reflexivity.
Qed.

Lemma msg_type_memcpy (buf : list byte) (tag : byte) (rest : list byte) :
  msg_type (memcpy buf 0 (tag :: rest)) = Byte.to_nat tag.
Proof. reflexivity. Qed.

(** One whole message fed from between two messages ends in its dispatch,
    entered with the message at the head of [rx_msg]. *)
Lemma HandleIncoming_message (tag : byte) (args trailer : list byte) (s : State) :
  at_boundary s ->
  nth_error (incoming_arg_size hdr) (Byte.to_nat tag) = Some (length args) ->
  IncomingVarArgSize hdr (memcpy (rx_msg s) 0 (tag :: args)) = length trailer ->
  AppProtocolHandleIncoming hdr drv (tag :: args ++ trailer) s
  = MessageDone hdr drv (received (tag :: args ++ trailer) s).
Proof.
  intros Hb Hn Hv. unfold received.
  rewrite (at_boundary_decoder_at s Hb) at 1.
  set (m := rx_msg s) in *.
  change (tag :: args ++ trailer) with ([tag] ++ (args ++ trailer)) at 1.
  rewrite HandleIncoming_app.
  change 1 with (length [tag]) at 1.
  rewrite HandleIncoming_exact by discriminate.
  unfold change_state, bind, get. cbn [rx_message_state decoder_at].
  rewrite (case_WAIT_TYPE_at WAIT_TYPE 0 (0 + length [tag]) (length args) (memcpy m 0 [tag]) s Hn).
  assert (Hm1 : forall l, memcpy (memcpy m 0 [tag]) 1 l = memcpy m 0 (tag :: l)).
  { intros l. exact (memcpy_app m 0 [tag] l). }
  assert (Hm2 : memcpy (memcpy m 0 (tag :: args)) (S (length args)) trailer
                = memcpy m 0 (tag :: args ++ trailer)).
  { exact (memcpy_app m 0 (tag :: args) trailer). }
  cbn [length Nat.add].
  destruct args as [| a args'].
  - (* no fixed arguments *)
    cbn [length Nat.eqb app] in *.
    rewrite case_WAIT_ARGS_at, Hv.
    destruct trailer as [| y trailer'].
    + cbn [length Nat.eqb and_then]. apply and_then_nil.
    + cbn [length Nat.eqb and_then].
      change (S (length trailer')) with (length (y :: trailer')).
      rewrite HandleIncoming_exact by discriminate.
      unfold change_state, bind, get. cbn [rx_message_state decoder_at].
      rewrite case_WAIT_VAR_ARGS_at. rewrite Hm1. reflexivity.
  - set (args := a :: args') in *.
    assert (Hla : (length args =? 0) = false) by reflexivity.
    rewrite Hla. cbn [and_then].
    rewrite HandleIncoming_app, HandleIncoming_exact by discriminate.
    unfold change_state at 1, bind, get. cbn [rx_message_state decoder_at].
    rewrite case_WAIT_ARGS_at, Hm1, Hv.
    destruct trailer as [| y trailer'].
    + cbn [length Nat.eqb]. rewrite app_nil_r.
      destruct (MessageDone hdr drv _) as [[|] s' |]; reflexivity.
    + cbn [length Nat.eqb and_then].
      change (S (length trailer')) with (length (y :: trailer')).
      rewrite HandleIncoming_exact by discriminate.
      unfold change_state, bind, get. cbn [rx_message_state decoder_at].
      rewrite case_WAIT_VAR_ARGS_at.
      change (1 + length args) with (S (length args)).
      rewrite Hm2. reflexivity.
Qed.

End Receiving.

(** ** The dispatcher *)

Lemma type_of_code_inv (n : nat) (t : MESSAGE_TYPE) :
  type_of_code n = Some t -> n = type_code t.
Proof.
  unfold type_of_code.
  do 16 (destruct n as [| n]; [intros H; inversion H; reflexivity |]).
  destruct n; discriminate.
Qed.

Lemma type_of_code_type_code (t : MESSAGE_TYPE) :
  type_of_code (type_code t) = Some t.
Proof. destruct t; reflexivity. Qed.

Lemma sent_messages_app (t1 t2 : list Event) :
  sent_messages (t1 ++ t2) = sent_messages t1 ++ sent_messages t2.
Proof.
  induction t1 as [| e t1 IH]; [reflexivity |].
  destruct e; cbn; rewrite IH; reflexivity.
Qed.

Lemma read_bytes_head (x : byte) (l rest : list byte) :
  read_bytes (x :: l ++ rest) 0 (S (length l)) = x :: l.
Proof.
  unfold read_bytes. cbn [skipn firstn app]. f_equal.
  rewrite <- app_assoc. apply firstn_exact. reflexivity.
Qed.

Lemma read_bytes_args (x : byte) (l rest : list byte) :
  read_bytes (x :: l ++ rest) 1 (length l) = l.
Proof.
  unfold read_bytes. cbn [skipn].
  rewrite <- app_assoc. apply firstn_exact. reflexivity.
Qed.


Lemma memcpy_head (buf : list byte) (x : byte) (l : list byte) :
  memcpy buf 0 (x :: l) = x :: l ++ skipn (S (length l)) buf.
Proof. reflexivity. Qed.

Section Dispatcher.

Variable hdr : Header.
Variable drv : Drivers.

Lemma incoming_entry (t : MESSAGE_TYPE) :
  nth_error (incoming_arg_size hdr) (type_code t)
  = Some (BYTE_of_size (sizeof hdr (incoming_args t))).
Proof. destruct t; reflexivity. Qed.

(** At the index of an echoed type both tables hold the size of the same
    structure. *)
Lemma outgoing_entry_echo (t : MESSAGE_TYPE) :
  is_echo_type t = true ->
  nth_error (outgoing_arg_size hdr) (type_code t)
  = Some (BYTE_of_size (sizeof hdr (incoming_args t))).
Proof. destruct t; try discriminate; reflexivity. Qed.

Lemma echo_length (n : nat) :
  n < 255 -> (1 + BYTE_of_size n) mod 256 = S n.
Proof.
  intros Hn. unfold BYTE_of_size.
  rewrite (Nat.mod_small n 256) by lia.
  apply Nat.mod_small. lia.
Qed.

(** A message that fails the validation of the specification's table is
    refused, and nothing else happens. *)
Lemma MessageDone_rejects (s : State) (t : MESSAGE_TYPE) :
  type_of_code (msg_type (rx_msg s)) = Some t ->
  spec_validation hdr t (rx_msg s) = false ->
  MessageDone hdr drv s = Ok false (log (Dispatched (rx_msg s)) s).
Proof.
  intros Ht Hv.
  unfold MessageDone, bind, get, modify. cbv beta iota zeta.
  rewrite Ht.
  destruct t; unfold spec_validation in Hv; cbv beta zeta in Hv;
    unfold CHECK, ret;
    repeat match goal with
      | |- context [if ?c then _ else _] => destruct c eqn:?
      end;
    try reflexivity; cbn in Hv; discriminate.
Qed.

Lemma MessageDone_undeclared (s : State) :
  type_of_code (msg_type (rx_msg s)) = None ->
  MessageDone hdr drv s = Ok false (log (Dispatched (rx_msg s)) s).
Proof.
  intros Ht.
  unfold MessageDone, bind, get, modify. cbv beta iota zeta.
  rewrite Ht. reflexivity.
Qed.

(** What the dispatch of a valid message of an echoed type does. *)
Lemma MessageDone_echo (s : State) (t : MESSAGE_TYPE) (b : bool) (s' : State) :
  let m := rx_msg s in
  let echo := read_bytes m 0 (S (sizeof hdr (incoming_args t))) in
  type_of_code (msg_type m) = Some t ->
  is_echo_type t = true ->
  sizeof hdr (incoming_args t) < 255 ->
  spec_validation hdr t m = true ->
  MessageDone hdr drv s = Ok b s' ->
  b = true
  /\ exists c extra,
       trace s' = trace s ++ Dispatched m :: Called c :: Sent echo :: extra
       /\ is_report c = false
       /\ bytes (tx_queue s')
          = bytes (tx_queue s) ++ echo ++ concat (sent_messages extra)
       /\ (extra = []
           \/ exists rc r, extra = [Called rc; Sent r] /\ is_report rc = true).
Proof.
  intros m echo Ht Hecho Hsize Hv H.
  pose proof (type_of_code_inv _ _ Ht) as Hcode. fold m in Hcode.
  pose proof (outgoing_entry_echo t Hecho) as Hout.
  pose proof (echo_length _ Hsize) as Hlen.
  unfold MessageDone, Echo, report_digital_in_status,
    report_uart_tx_status in H.
  unfold bind at 1, get at 1 in H. cbv beta iota zeta in H.
  fold m in H. rewrite Ht in H.
  destruct t; try discriminate Hecho;
    unfold spec_validation in Hv; cbv beta zeta in Hv; fold m in Hv;
    run_in H; send_inv;
    try (cbn in Hv; discriminate Hv);
    match goal with
    | E : nth_error _ (msg_type (rx_msg _)) = Some _ |- _ =>
        cbn [rx_msg log] in E; fold m in E;
        rewrite Hcode, Hout in E; injection E as <-
    end;
    cbn [incoming_args] in *; rewrite Hlen;
    (split; [reflexivity |]);
    eexists; eexists;
    (split;
     [ cbn [trace tx_queue bytes rx_msg sent log set_tx_queue];
       rewrite <- !app_assoc; cbn [app]; reflexivity |]);
    (split; [reflexivity |]);
    (split;
     [ cbn [trace tx_queue bytes rx_msg sent log set_tx_queue
              sent_messages concat];
       rewrite ?app_nil_r, <- ?app_assoc; reflexivity |]);
    first [ left; reflexivity
          | right; eexists; eexists; split; reflexivity ].
Qed.

End Dispatcher.

Lemma to_nat_byte_of_nat (n : nat) : n <= 255 -> Byte.to_nat (byte_of_nat n) = n.
Proof.
  intros Hn. unfold byte_of_nat.
  destruct (Byte.of_nat n) as [b |] eqn:E.
  - apply Byte.to_of_nat. exact E.
  - apply Byte.of_nat_None_iff in E. lia.
Qed.

Lemma type_code_bound (t : MESSAGE_TYPE) : type_code t <= 255.
Proof. destruct t; cbn; lia. Qed.

Section Claims.

Variable hdr : Header.
Variable drv : Drivers.

(** C5.  A valid message of an echoed type, once dispatched, has been
    echoed exactly: the dispatch returns [TRUE]; what it adds to the trace is
    the hardware call of the type, then one message sent, which is the tag
    and the fixed argument block as they stand in [rx_msg], then at most the
    call and the message of one status report.  The echo is the first
    message appended to the queue, the report, if any, comes after it. *)
Theorem echo_precedes_report
    (s : State) (t : MESSAGE_TYPE) (b : bool) (s' : State) :
  let m := rx_msg s in
  let echo := read_bytes m 0 (S (sizeof hdr (incoming_args t))) in
  type_of_code (msg_type m) = Some t ->
  is_echo_type t = true ->
  sizeof hdr (incoming_args t) < 255 ->
  spec_validation hdr t m = true ->
  MessageDone hdr drv s = Ok b s' ->
  b = true
  /\ exists c extra,
       trace s' = trace s ++ Dispatched m :: Called c :: Sent echo :: extra
       /\ is_report c = false
       /\ sent_messages (Dispatched m :: Called c :: Sent echo :: extra)
          = echo :: sent_messages extra
       /\ bytes (tx_queue s')
          = bytes (tx_queue s) ++ echo ++ concat (sent_messages extra)
       /\ (extra = []
           \/ exists rc r, extra = [Called rc; Sent r] /\ is_report rc = true).
Proof.
  intros m echo Ht Hecho Hsize Hv H.
  destruct (MessageDone_echo hdr drv s t b s' Ht Hecho Hsize Hv H)
    as (Hb & c & extra & Htr & Hc & Hq & Hex).
  split; [exact Hb |].
  exists c, extra. repeat split; try assumption.
Qed.

Lemma IncomingVarArgSize_fixed (t : MESSAGE_TYPE) (buf : list byte) :
  type_of_code (msg_type buf) = Some t ->
  t <> UART_DATA ->
  IncomingVarArgSize hdr buf = 0.
Proof.
  intros Ht Hne. unfold IncomingVarArgSize. rewrite Ht.
  destruct t; try reflexivity. congruence.
Qed.

(** A dispatch that returns [TRUE] has passed the validation of the
    specification's table. *)
Lemma MessageDone_true_valid (s : State) (t : MESSAGE_TYPE) (s' : State) :
  type_of_code (msg_type (rx_msg s)) = Some t ->
  MessageDone hdr drv s = Ok true s' ->
  spec_validation hdr t (rx_msg s) = true.
Proof.
  intros Ht H.
  destruct (spec_validation hdr t (rx_msg s)) eqn:Hv; [reflexivity |].
  rewrite (MessageDone_rejects hdr drv s t Ht Hv) in H. discriminate.
Qed.

(** C9.  At the index of each echoed type the two tables hold the same
    size, and therefore a message of such a type that is received and
    dispatched is echoed byte for byte: fed from between two messages, the
    tag and the argument block make the dispatcher send exactly these bytes,
    which are the first thing appended to the queue. *)
Theorem echo_tables_agree
    (t : MESSAGE_TYPE) (args : list byte) (s s' : State) :
  is_echo_type t = true ->
  nth_error (incoming_arg_size hdr) (type_code t)
  = nth_error (outgoing_arg_size hdr) (type_code t)
  /\ (at_boundary s ->
      length args = sizeof hdr (incoming_args t) ->
      length args < 255 ->
      AppProtocolHandleIncoming hdr drv (byte_of_nat (type_code t) :: args) s
      = Ok true s' ->
      exists c extra,
        sent_messages
          (Called c :: Sent (byte_of_nat (type_code t) :: args) :: extra)
        = (byte_of_nat (type_code t) :: args) :: sent_messages extra
        /\ is_report c = false
        /\ trace s'
           = trace s
               ++ Dispatched (memcpy (rx_msg s) 0
                                (byte_of_nat (type_code t) :: args))
               :: Called c
               :: Sent (byte_of_nat (type_code t) :: args) :: extra
        /\ bytes (tx_queue s')
           = bytes (tx_queue s)
               ++ (byte_of_nat (type_code t) :: args)
               ++ concat (sent_messages extra)).
Proof.
  intros Hecho. split.
  - rewrite incoming_entry, outgoing_entry_echo by exact Hecho. reflexivity.
  - intros Hb Hlen Hsmall H.
    set (tag := byte_of_nat (type_code t)) in *.
    assert (Htag : Byte.to_nat tag = type_code t)
      by apply to_nat_byte_of_nat, type_code_bound.
    assert (Htype : forall l buf,
               type_of_code (msg_type (memcpy buf 0 (tag :: l))) = Some t).
    { intros l buf. rewrite msg_type_memcpy, Htag.
      apply type_of_code_type_code. }
    rewrite <- (app_nil_r args) in H.
    rewrite HandleIncoming_message in H; try assumption.
    + rewrite app_nil_r in H.
      assert (Hm : rx_msg (received (tag :: args) s)
                   = tag :: args ++ skipn (S (length args)) (rx_msg s))
        by reflexivity.
      pose proof (MessageDone_true_valid (received (tag :: args) s) t s'
                    (Htype args (rx_msg s)) H) as Hv.
      rewrite Hlen in Hsmall.
      destruct (MessageDone_echo hdr drv (received (tag :: args) s) t true s'
                  (Htype args (rx_msg s)) Hecho Hsmall Hv H)
        as (_ & c & extra & Htr & Hc & Hq & _).
      rewrite Hm, <- Hlen, read_bytes_head in Htr, Hq.
      exists c, extra. repeat split; assumption.
    + rewrite Htag, incoming_entry. f_equal.
      unfold BYTE_of_size. rewrite <- Hlen. apply Nat.mod_small. lia.
    + apply (IncomingVarArgSize_fixed t); [apply Htype |].
      intros ->. discriminate.
Qed.

(** C7.  A refused message has no effect.  Whenever [MessageDone] returns
    [FALSE] the state is the one it was entered in, but for the record of
    the dispatch: the queue is unchanged, nothing was called, nothing was
    sent.  A message that fails the validation of its type is refused in
    this way.  In particular a [HARD_RESET] whose magic is not [IOIO_MAGIC],
    fed from between two messages, makes [AppProtocolHandleIncoming] return
    [FALSE] with the queue as it was and no [HardReset] in the trace. *)
Theorem refused_message_has_no_effect (s : State) :
  (forall s',
      MessageDone hdr drv s = Ok false s' ->
      s' = log (Dispatched (rx_msg s)) s
      /\ tx_queue s' = tx_queue s
      /\ trace s' = trace s ++ [Dispatched (rx_msg s)])
  /\ (forall t,
        type_of_code (msg_type (rx_msg s)) = Some t ->
        spec_validation hdr t (rx_msg s) = false ->
        MessageDone hdr drv s = Ok false (log (Dispatched (rx_msg s)) s))
  /\ (forall args,
        at_boundary s ->
        length args = sizeof hdr HARD_RESET_ARGS ->
        length args < 256 ->
        field hdr hard_reset_magic args <> IOIO_MAGIC hdr ->
        exists s',
          AppProtocolHandleIncoming hdr drv (x00 :: args) s = Ok false s'
          /\ tx_queue s' = tx_queue s
          /\ trace s' = trace s ++ [Dispatched (memcpy (rx_msg s) 0 (x00 :: args))]).
Proof.
  split; [| split].
  - intros s' H. rewrite (MessageDone_false hdr drv s s' H).
    repeat split.
  - intros t Ht Hv. exact (MessageDone_rejects hdr drv s t Ht Hv).
  - intros args Hb Hlen Hsmall Hmagic.
    assert (Htype : forall buf,
               type_of_code (msg_type (memcpy buf 0 (x00 :: args)))
               = Some HARD_RESET) by reflexivity.
    eexists. split; [| split].
    + rewrite <- (app_nil_r args).
      rewrite HandleIncoming_message; try assumption.
      * rewrite app_nil_r.
        apply (MessageDone_rejects hdr drv (received (x00 :: args) s)
                 HARD_RESET (Htype (rx_msg s))).
        unfold spec_validation, msg_field.
        change (rx_msg (received (x00 :: args) s))
          with (x00 :: args ++ skipn (S (length args)) (rx_msg s)).
        cbn [field_struct]. rewrite <- Hlen, read_bytes_args.
        apply Z.eqb_neq. exact Hmagic.
      * change (Byte.to_nat x00) with (type_code HARD_RESET).
        rewrite incoming_entry. f_equal.
        unfold BYTE_of_size. cbn [incoming_args]. rewrite <- Hlen.
        apply Nat.mod_small. exact Hsmall.
      * apply (IncomingVarArgSize_fixed HARD_RESET); [apply Htype |].
        discriminate.
    + reflexivity.
    + reflexivity.
Qed.



(** The narrowing of [size + 1] to a [BYTE]. *)
Lemma IncomingVarArgSize_wraps (buf : list byte) :
  type_of_code (msg_type buf) = Some UART_DATA ->
  msg_field hdr uart_data_size buf = 255%Z ->
  IncomingVarArgSize hdr buf = 0.
Proof.
  intros Ht Hs. unfold IncomingVarArgSize. rewrite Ht, Hs. reflexivity.
Qed.

End Claims.

(** ** The transmit pump *)


Lemma written_app (t1 t2 : list Event) :
  written (t1 ++ t2) = written t1 ++ written t2.
Proof.
  induction t1 as [| e t1 IH]; [reflexivity |].
  destruct e as [[] | |]; cbn; rewrite IH, ?app_assoc; reflexivity.
Qed.



(** ** The narrowing in [IncomingVarArgSize] *)

(** C4 fails on the code at size 255.  With the size member one byte wide,
    [size + 1] is 256 and does not fit the [BYTE] that [IncomingVarArgSize]
    returns: the trailer length comes out as 0.  A [UART_DATA] for uart 0
    announcing 256 bytes is therefore dispatched as soon as its two argument
    bytes are in, before any data byte has arrived, and [UARTTransmit] is
    handed the 256 bytes that happen to follow the arguments in [rx_msg]
    (zeroes, on a fresh device); the decoder is back between two messages
    and will take the data bytes for new messages. *)
Theorem size_255_reads_no_trailer :
  let msg := bytes_of [12; 0; 255] in
  let s' := state_of (AppProtocolHandleIncoming Sample.header Sample.drivers
                        msg Sample.idle) power_on in
  IncomingVarArgSize Sample.header msg = 0
  /\ AppProtocolHandleIncoming Sample.header Sample.drivers msg Sample.idle
     = Ok true s'
  /\ at_boundary s'
  /\ trace s'
     = trace Sample.idle
         ++ [Dispatched msg; Called (UARTTransmit 0 (repeat x00 256))].
Proof.
  vm_compute. repeat split; reflexivity.
Qed.

(** ** The theorems on the scenarios of the specification *)

(** C5 on [SET_CHANGE_NOTIFY, pin=5, cn=1]: the echo, then the report for
    pin 5. *)
Lemma echo_precedes_report_witness :
  let s := received (bytes_of [5; 5; 1]) Sample.idle in
  let s' := state_of (MessageDone Sample.header Sample.drivers s) power_on in
  trace s'
  = trace s ++ [Dispatched (bytes_of [5; 5; 1]);
                Called (SetChangeNotify 5 1);
                Sent (bytes_of [5; 5; 1]);
                Called (ReportDigitalInStatus 5);
                Sent (bytes_of [3; 5; 0])]
  /\ exists c extra,
       trace s'
       = trace s ++ Dispatched (rx_msg s) :: Called c
                 :: Sent (bytes_of [5; 5; 1]) :: extra
       /\ is_report c = false
       /\ bytes (tx_queue s')
          = bytes (tx_queue s) ++ bytes_of [5; 5; 1]
              ++ concat (sent_messages extra).
Proof.
  cbv zeta. split; [vm_compute; reflexivity |].
  set (s := received (bytes_of [5; 5; 1]) Sample.idle).
  set (s' := state_of (MessageDone Sample.header Sample.drivers s) power_on).
  assert (H1 : type_of_code (msg_type (rx_msg s)) = Some SET_CHANGE_NOTIFY)
    by (vm_compute; reflexivity).
  assert (H2 : is_echo_type SET_CHANGE_NOTIFY = true) by reflexivity.
  assert (H3 : sizeof Sample.header (incoming_args SET_CHANGE_NOTIFY) < 255)
    by (cbn; lia).
  assert (H4 : spec_validation Sample.header SET_CHANGE_NOTIFY (rx_msg s) = true)
    by (vm_compute; reflexivity).
  assert (H5 : MessageDone Sample.header Sample.drivers s = Ok true s')
    by (vm_compute; reflexivity).
  destruct (echo_precedes_report Sample.header Sample.drivers
              s SET_CHANGE_NOTIFY true s' H1 H2 H3 H4 H5)
    as (_ & c & extra & Htr & Hc & _ & Hq & _).
  exists c, extra. repeat split; assumption.
Defined.


(** C7 on [HARD_RESET, magic=WRONG]. *)
Lemma refused_message_has_no_effect_witness :
  exists s',
    AppProtocolHandleIncoming Sample.header Sample.drivers
      (bytes_of [0; 1; 2; 3; 4]) Sample.connected = Ok false s'
    /\ tx_queue s' = tx_queue Sample.connected
    /\ trace s'
       = trace Sample.connected ++ [Dispatched (bytes_of [0; 1; 2; 3; 4])].
Proof.
  destruct (refused_message_has_no_effect Sample.header Sample.drivers
              Sample.connected) as (_ & _ & H).
  apply (H (bytes_of [1; 2; 3; 4])).
  - vm_compute. auto.
  - reflexivity.
  - cbn. lia.
  - vm_compute. discriminate.
Defined.


(** C9 on [SET_PIN_DIGITAL_OUT, pin=3, value=1, open_drain=0]: the four bytes
    received are the four bytes queued. *)
Lemma echo_tables_agree_witness :
  let s' := state_of (AppProtocolHandleIncoming Sample.header Sample.drivers
                        (bytes_of [2; 3; 1; 0]) Sample.idle) power_on in
  bytes (tx_queue s') = bytes_of [2; 3; 1; 0]
  /\ exists c extra,
       is_report c = false
       /\ bytes (tx_queue s')
          = bytes (tx_queue Sample.idle) ++ bytes_of [2; 3; 1; 0]
              ++ concat (sent_messages extra).
Proof.
  cbv zeta. split; [vm_compute; reflexivity |].
  set (s' := state_of (AppProtocolHandleIncoming Sample.header Sample.drivers
                         (bytes_of [2; 3; 1; 0]) Sample.idle) power_on).
  destruct (echo_tables_agree Sample.header Sample.drivers SET_PIN_DIGITAL_OUT
              (bytes_of [3; 1; 0]) Sample.idle s' eq_refl) as [_ H].
  destruct H as (c & extra & _ & Hc & _ & Hq).
  - vm_compute. auto.
  - reflexivity.
  - cbn. lia.
  - vm_compute. reflexivity.
  - exists c, extra. split; assumption.
Defined.

(* ===================================================================== *)
(** * Properties of the code beyond the specification *)
(* ===================================================================== *)

(** ** The decoder stays inside its buffer *)

Lemma state_as_decoder_at (s : State) :
  s = decoder_at (rx_message_state s) (rx_message_remaining s)
        (rx_buffer_cursor s) (rx_msg s) s.
Proof. destruct s. reflexivity. Qed.

Lemma memcpy_beyond (buf : list byte) (c : nat) (src : list byte) (n : nat) :
  c + length src <= n -> skipn n (memcpy buf c src) = skipn n buf.
Proof.
  intros Hn. destruct src as [| x src']; [reflexivity |].
  rewrite memcpy_overwrite by discriminate. unfold overwrite.
  set (src := x :: src') in *.
  set (p := firstn c (buf ++ repeat x00 c)).
  assert (Hp : length (p ++ src) = c + length src).
  { rewrite length_app. unfold p. rewrite padded_prefix_length. reflexivity. }
  rewrite app_assoc.
  replace n with (c + length src + (n - (c + length src))) at 1 by lia.
  rewrite (skipn_exact _ _ _ _ Hp), skipn_skipn.
  f_equal. lia.
Qed.

Section Bounds.

Variable hdr : Header.
Variable drv : Drivers.

Lemma incoming_entry_bound (i n : nat) :
  nth_error (incoming_arg_size hdr) i = Some n -> n < 256.
Proof.
  intros H. apply nth_error_In in H. unfold incoming_arg_size in H.
  apply in_map_iff in H. destruct H as (x & <- & _).
  unfold BYTE_of_size. apply Nat.mod_upper_bound. discriminate.
Qed.

Lemma IncomingVarArgSize_bound (buf : list byte) :
  IncomingVarArgSize hdr buf < 256.
Proof.
  unfold IncomingVarArgSize.
  destruct (type_of_code (msg_type buf)) as [[] |]; try lia.
  pose proof (Z.mod_pos_bound (msg_field hdr uart_data_size buf + 1) 256).
  lia.
Qed.

(** A transition taken with the cursor in range puts the decoder back in
    range and leaves the buffer alone. *)
Lemma change_state_inv (s : State) (b : bool) (s' : State) :
  rx_message_remaining s = 0 ->
  within (rx_message_state s) (rx_buffer_cursor s) 0 ->
  change_state hdr drv s = Ok b s' ->
  decoder_inv s' /\ rx_msg s' = rx_msg s.
Proof.
  intros Hrem Hin H.
  pose proof (IncomingVarArgSize_bound (rx_msg s)) as Hv.
  unfold change_state, case_WAIT_TYPE, case_WAIT_ARGS, case_WAIT_VAR_ARGS,
    table_read in H.
  unfold decoder_inv.
  run_in H;
    repeat match goal with
      | E : MessageDone _ _ _ = Ok _ _ |- _ =>
          apply MessageDone_frame in E;
          destruct E as [(Em & Ec & Er & Es & _) _];
          rewrite Em, Ec, Er, Es
      | E : Ok _ _ = Ok _ _ |- _ => injection E; clear E; intros; subst
      | E : (_ =? _) = false |- _ => apply Nat.eqb_neq in E
      | E : (_ =? _) = true |- _ => apply Nat.eqb_eq in E
      | E : nth_error (incoming_arg_size hdr) _ = Some _ |- _ =>
          apply incoming_entry_bound in E
      | E : rx_message_state s = _ |- _ => rewrite E in Hin
      end;
    cbn in *; repeat split; try reflexivity; lia.
Qed.

Lemma advance_inv (bs : list byte) (s : State) :
  decoder_inv s ->
  length bs <= rx_message_remaining s ->
  within (rx_message_state s) (rx_buffer_cursor (advance bs s))
    (rx_message_remaining (advance bs s))
  /\ skipn 511 (rx_msg (advance bs s)) = skipn 511 (rx_msg s).
Proof.
  intros [Hrem Hin] Hlen. unfold advance.
  cbn [rx_msg rx_buffer_cursor rx_message_remaining rx_message_state].
  split.
  - destruct (rx_message_state s); unfold within in *; lia.
  - apply memcpy_beyond.
    destruct (rx_message_state s); unfold within in *; lia.
Qed.

(** X1.  The decoder never leaves its buffer.  From a state in which it
    awaits at least one byte with the cursor in range (as after
    [AppProtocolInit]), every call that returns, with [TRUE] or with [FALSE],
    leaves it so again: one byte awaited at offset 0 for a tag, an argument
    block that ends at offset 256 at most, a trailer that ends at offset 511
    at most.  Nothing is ever copied at offset 511 of [rx_msg] or beyond. *)
Theorem decoder_stays_in_buffer (data : list byte) (s : State) (b : bool) (s' : State) :
  decoder_inv s ->
  AppProtocolHandleIncoming hdr drv data s = Ok b s' ->
  decoder_inv s' /\ skipn 511 (rx_msg s') = skipn 511 (rx_msg s).
Proof.
  intros Hinv H. revert Hinv b s' H.
  apply (HandleIncoming_ind hdr drv
           (fun data s r =>
              decoder_inv s -> forall b s', r = Ok b s' ->
              decoder_inv s' /\ skipn 511 (rx_msg s') = skipn 511 (rx_msg s))).
  - intros s0 Hinv b s' H. injection H as _ <-. auto.
  - intros data0 s0 _ k s1 Hne Hinv b s' H. injection H as _ <-.
    destruct (advance_inv (firstn k data0) s0 Hinv) as [Hin Hrx].
    { rewrite length_firstn. unfold k. lia. }
    split; [| exact Hrx].
    split; [unfold s1 in *; lia | exact Hin].
  - intros data0 s0 _ k s1 Hz. split; [| split].
    + discriminate.
    + intros s2 Ec Hinv b s' H. injection H as _ <-.
      destruct (advance_inv (firstn k data0) s0 Hinv) as [Hin Hrx].
      { rewrite length_firstn. unfold k. lia. }
      fold s1 in Hin, Hrx. rewrite Hz in Hin.
      destruct (change_state_inv s1 false s2 Hz Hin Ec) as [Hinv2 Hm].
      split; [exact Hinv2 | rewrite Hm; exact Hrx].
    + intros s2 Ec IH Hinv b s' H.
      destruct (advance_inv (firstn k data0) s0 Hinv) as [Hin Hrx].
      { rewrite length_firstn. unfold k. lia. }
      fold s1 in Hin, Hrx. rewrite Hz in Hin.
      destruct (change_state_inv s1 true s2 Hz Hin Ec) as [Hinv2 Hm].
      destruct (IH Hinv2 b s' H) as [Hinv' Hrx'].
      split; [exact Hinv' | rewrite Hrx', Hm; exact Hrx].
Qed.

End Bounds.

(** X1 on a concrete run: a [UART_DATA] of three bytes, then the start of a
    [SET_PIN_DIGITAL_OUT], right after initialisation. *)
Lemma decoder_stays_in_buffer_witness :
  let data := bytes_of [12; 0; 2; 97; 98; 99; 2; 3] in
  let s' := state_of (AppProtocolHandleIncoming Sample.header Sample.drivers
                        data Sample.connected) power_on in
  decoder_inv s' /\ skipn 511 (rx_msg s') = skipn 511 (rx_msg Sample.connected).
Proof.
  apply (decoder_stays_in_buffer Sample.header Sample.drivers
           (bytes_of [12; 0; 2; 97; 98; 99; 2; 3]) Sample.connected true).
  - unfold decoder_inv. vm_compute. lia.
  - vm_compute. reflexivity.
Defined.

(** ** Framing of a stream of messages *)

Section Streams.

Variable hdr : Header.
Variable drv : Drivers.

Lemma well_framed_inv (m : Message) :
  well_framed hdr m = true ->
  nth_error (incoming_arg_size hdr) (Byte.to_nat (tag m)) = Some (length (args m))
  /\ forall buf,
       IncomingVarArgSize hdr (memcpy buf 0 (tag m :: args m))
       = length (trailer m).
Proof.
  unfold well_framed. intros H.
  destruct (nth_error (incoming_arg_size hdr) (Byte.to_nat (tag m)))
    as [n |] eqn:En; [| discriminate].
  apply andb_prop in H. destruct H as [H Hu].
  apply andb_prop in H. destruct H as [Ha Ht].
  apply Nat.eqb_eq in Ha, Ht. subst n.
  split; [reflexivity |].
  intros buf. rewrite Ht.
  unfold IncomingVarArgSize, trailer_length.
  rewrite msg_type_memcpy.
  destruct (type_of_code (Byte.to_nat (tag m))) as [[] |]; try reflexivity.
  apply Nat.eqb_eq in Hu.
  unfold msg_field. cbn [field_struct].
  rewrite memcpy_head, <- Hu, read_bytes_args. reflexivity.
Qed.

Lemma received_at_boundary (bs : list byte) (s : State) :
  at_boundary (received bs s).
Proof. repeat split. Qed.

Lemma MessageDone_at_boundary (s : State) (b : bool) (s' : State) :
  at_boundary s -> MessageDone hdr drv s = Ok b s' -> at_boundary s'.
Proof.
  intros (Hs & Hr & Hc) H.
  apply MessageDone_frame in H. destruct H as [(_ & Ec & Er & Es & _) _].
  unfold at_boundary. rewrite Ec, Er, Es. auto.
Qed.

(** X2.  A chunk made of whole messages is dispatched message by message.
    Fed from between two messages, a stream of messages each framed as the
    tables say (tag, argument block of the table's length, trailer of the
    computed length) makes one call do exactly this: enter [MessageDone] for
    the first message, received whole at the head of [rx_msg]; if that
    returns [TRUE], for the second; and so on, up to the first [FALSE], which
    ends the call. *)
Theorem stream_is_dispatched_in_order (ms : list Message) :
  forall s : State,
    forallb (well_framed hdr) ms = true ->
    at_boundary s ->
    AppProtocolHandleIncoming hdr drv (concat (map message_bytes ms)) s
    = dispatch_each hdr drv ms s.
Proof.
  induction ms as [| m ms IH]; intros s Hwf Hb.
  - reflexivity.
  - cbn [forallb] in Hwf. apply andb_prop in Hwf. destruct Hwf as [Hm Hms].
    destruct (well_framed_inv m Hm) as [Hn Hv].
    cbn [map concat dispatch_each]. rewrite HandleIncoming_app.
    unfold message_bytes at 1.
    rewrite (HandleIncoming_message hdr drv (tag m) (args m) (trailer m) s
               Hb Hn (Hv (rx_msg s))).
    fold (message_bytes m).
    destruct (MessageDone hdr drv (received (message_bytes m) s))
      as [[|] s1 |] eqn:Ed; cbn [and_then]; try reflexivity.
    apply IH; [exact Hms |].
    exact (MessageDone_at_boundary _ _ _ (received_at_boundary _ s) Ed).
Qed.

End Streams.

(** X2 on a chunk of three messages: a [SOFT_RESET], a [UART_DATA] of two
    bytes, a [SET_PIN_DIGITAL_OUT]. *)
Lemma stream_is_dispatched_in_order_witness :
  let ms := [ {| tag := byte_of_nat 1; args := []; trailer := [] |};
              {| tag := byte_of_nat 12; args := bytes_of [0; 1];
                 trailer := bytes_of [97; 98] |};
              {| tag := byte_of_nat 2; args := bytes_of [3; 1; 0];
                 trailer := [] |} ] in
  AppProtocolHandleIncoming Sample.header Sample.drivers
    (bytes_of [1; 12; 0; 1; 97; 98; 2; 3; 1; 0]) Sample.idle
  = dispatch_each Sample.header Sample.drivers ms Sample.idle.
Proof.
  apply (stream_is_dispatched_in_order Sample.header Sample.drivers
           [ {| tag := byte_of_nat 1; args := []; trailer := [] |};
             {| tag := byte_of_nat 12; args := bytes_of [0; 1];
                trailer := bytes_of [97; 98] |};
             {| tag := byte_of_nat 2; args := bytes_of [3; 1; 0];
                trailer := [] |} ] Sample.idle).
  - vm_compute. reflexivity.
  - vm_compute. auto.
Defined.

(** ** Undefined behaviour *)

Section Faults.

Variable hdr : Header.
Variable drv : Drivers.







End Faults.

(** ** The queue between the receive path and the pump *)

Lemma appends_refl (s : State) : appends s s.
Proof.
  exists []. cbn. rewrite !app_nil_r. repeat split.
Qed.

Lemma appends_trans (s1 s2 s3 : State) :
  appends s1 s2 -> appends s2 s3 -> appends s1 s3.
Proof.
  intros (t1 & Ht1 & Hb1 & Hc1 & Hn1 & Hw1) (t2 & Ht2 & Hb2 & Hc2 & Hn2 & Hw2).
  exists (t1 ++ t2).
  rewrite Ht2, Ht1, Hb2, Hb1, Hc2, Hc1, Hn2, Hn1.
  rewrite sent_messages_app, concat_app, written_app, Hw1, Hw2, <- !app_assoc.
  repeat split.
Qed.

(** A change of the decoder's variables alone. *)
Lemma appends_decoder (s s' : State) :
  tx_queue s' = tx_queue s ->
  bytes_transmitted s' = bytes_transmitted s ->
  trace s' = trace s ->
  appends s s'.
Proof.
  intros Hq Hn Ht. exists []. rewrite Hq, Hn, Ht. cbn.
  rewrite !app_nil_r. repeat split.
Qed.

Section Queue.

Variable hdr : Header.
Variable drv : Drivers.

Lemma appends_log_call (c : Call) (s : State) :
  written [Called c] = [] -> appends s (log (Called c) s).
Proof.
  intros Hw. exists [Called c]. cbn [trace log tx_queue bytes_transmitted
    sent_messages concat]. rewrite app_nil_r. repeat split. exact Hw.
Qed.

Lemma appends_log_dispatched (m : list byte) (s : State) :
  appends s (log (Dispatched m) s).
Proof.
  exists [Dispatched m]. cbn. rewrite app_nil_r. repeat split.
Qed.

Lemma appends_sent (bs : list byte) (s : State) : appends s (sent bs s).
Proof.
  exists [Sent bs]. cbn. rewrite app_nil_r. repeat split.
Qed.

(** The dispatcher only appends to the queue. *)
Lemma MessageDone_appends (s : State) (b : bool) (s' : State) :
  MessageDone hdr drv s = Ok b s' -> appends s s'.
Proof.
  intros H.
  unfold MessageDone, Echo, report_digital_in_status,
    report_uart_tx_status in H.
  run_in H; send_inv;
    repeat first
      [ apply appends_refl
      | apply appends_log_dispatched
      | (eapply appends_trans; [| apply appends_sent])
      | (eapply appends_trans; [| apply appends_log_call; reflexivity]) ].
Qed.

Lemma change_state_appends (s : State) (b : bool) (s' : State) :
  change_state hdr drv s = Ok b s' -> appends s s'.
Proof.
  intros H.
  unfold change_state, case_WAIT_TYPE, case_WAIT_ARGS, case_WAIT_VAR_ARGS,
    table_read in H.
  run_in H;
    repeat match goal with
      | E : Ok _ _ = Ok _ _ |- _ => injection E; clear E; intros; subst
      end;
    first
      [ match goal with
        | E : MessageDone _ _ _ = Ok _ _ |- _ =>
            apply MessageDone_appends in E;
            eapply appends_trans; [| exact E];
            apply appends_decoder; reflexivity
        end
      | apply appends_decoder; reflexivity ].
Qed.

Lemma HandleIncoming_appends (data : list byte) (s : State) :
  forall b s',
    AppProtocolHandleIncoming hdr drv data s = Ok b s' -> appends s s'.
Proof.
  apply (HandleIncoming_ind hdr drv
           (fun data s r => forall b s', r = Ok b s' -> appends s s')).
  - intros s0 b s' H. injection H as _ <-. apply appends_refl.
  - intros data0 s0 _ k s1 _ b s' H. injection H as _ <-.
    apply appends_decoder; reflexivity.
  - intros data0 s0 _ k s1 _. split; [| split].
    + discriminate.
    + intros s2 Ec b s' H. injection H as _ <-.
      eapply appends_trans; [| exact (change_state_appends _ _ _ Ec)].
      apply appends_decoder; reflexivity.
    + intros s2 Ec IH b s' H.
      eapply appends_trans; [| exact (IH b s' H)].
      eapply appends_trans; [| exact (change_state_appends _ _ _ Ec)].
      apply appends_decoder; reflexivity.
Qed.

(** X5.  The receive path only appends to the outgoing queue.  Whatever a
    call of [AppProtocolHandleIncoming] that returns has done to the queue, it
    has put the messages it sent, whole and in the order it sent them, behind
    the bytes that were there: no byte was removed or changed, the head of
    the ring and the in-flight count are where they were, and nothing was
    written to the channel. *)
Theorem receive_path_only_appends
    (data : list byte) (s : State) (b : bool) (s' : State) :
  AppProtocolHandleIncoming hdr drv data s = Ok b s' ->
  exists t,
    trace s' = trace s ++ t
    /\ bytes (tx_queue s') = bytes (tx_queue s) ++ concat (sent_messages t)
    /\ read_cursor (tx_queue s') = read_cursor (tx_queue s)
    /\ bytes_transmitted s' = bytes_transmitted s
    /\ written t = [].
Proof.
  intros H. exact (HandleIncoming_appends data s b s' H).
Qed.





(** X7.  [AppProtocolInit] cannot fail and starts afresh.  From any state at
    all (queue full, a write in flight, the decoder in the middle of a
    message) it returns, with the decoder between two messages, nothing in
    flight, and the queue holding the connection message and nothing else:
    what was queued before is dropped.  The bytes of [rx_msg] are not
    cleared. *)
Theorem init_starts_afresh (s : State) :
  exists s',
    AppProtocolInit hdr s = Ok tt s'
    /\ at_boundary s'
    /\ bytes_transmitted s' = 0
    /\ read_cursor (tx_queue s') = 0
    /\ bytes (tx_queue s')
       = read_bytes
           (x00 :: establish_connection_args hdr (IOIO_MAGIC hdr) 0 1 FIRMWARE_ID)
           0 ((1 + BYTE_of_size (sizeof hdr ESTABLISH_CONNECTION_ARGS)) mod 256)
    /\ length (bytes (tx_queue s')) < 256
    /\ trace s' = trace s ++ [Sent (bytes (tx_queue s'))]
    /\ rx_msg s' = rx_msg s.
Proof.
  unfold AppProtocolInit.
  unfold bind at 1 2 3 4 5, modify.
  set (msg := byte_of_nat ESTABLISH_CONNECTION
                :: establish_connection_args hdr (IOIO_MAGIC hdr) 0 1 FIRMWARE_ID).
  set (n := BYTE_of_size (sizeof hdr ESTABLISH_CONNECTION_ARGS)).
  assert (Hlen : (1 + n) mod 256 < 256)
    by (apply Nat.mod_upper_bound; discriminate).
  rewrite (AppProtocolSendMessage_fits hdr msg _ n).
  - eexists. split; [reflexivity |].
    cbn [sent log set_tx_queue tx_queue bytes read_cursor Clear
           bytes_transmitted set_bytes_transmitted set_rx_buffer_cursor
           set_rx_message_remaining set_rx_message_state trace rx_msg app].
    rewrite read_bytes_length.
    repeat split; try reflexivity. exact Hlen.
  - reflexivity.
  - cbn [set_tx_queue tx_queue bytes Clear length].
    apply Nat.lt_le_incl, (Nat.lt_trans _ 256); [exact Hlen |].
    apply Nat.ltb_lt. reflexivity.
Qed.

End Queue.

(** X5 on a concrete call: a [SET_CHANGE_NOTIFY] that enables notification
    appends its echo and the report behind the connection message. *)
Lemma receive_path_only_appends_witness :
  let s' := state_of (AppProtocolHandleIncoming Sample.header Sample.drivers
                        (bytes_of [5; 5; 1]) Sample.connected) power_on in
  bytes (tx_queue s')
  = bytes (tx_queue Sample.connected) ++ bytes_of [5; 5; 1; 3; 5; 0]
  /\ exists t,
       trace s' = trace Sample.connected ++ t
       /\ bytes (tx_queue s')
          = bytes (tx_queue Sample.connected) ++ concat (sent_messages t)
       /\ read_cursor (tx_queue s') = read_cursor (tx_queue Sample.connected)
       /\ bytes_transmitted s' = bytes_transmitted Sample.connected
       /\ written t = [].
Proof.
  split; [vm_compute; reflexivity |].
  apply (receive_path_only_appends Sample.header Sample.drivers
           (bytes_of [5; 5; 1]) Sample.connected true).
  vm_compute. reflexivity.
Defined.


(** ** More on the dispatcher *)

Section Dispatching.

Variable hdr : Header.
Variable drv : Drivers.

(** X8.  The two reserved slots are framed and then refused.  The incoming
    table has an entry for [REGISTER_PERIODIC_DIGITAL_SAMPLING] and for
    [RESERVED], so the decoder takes a tag of either type and the argument
    bytes the table announces; [MessageDone] has no arm for them, so the
    completed message makes the call return [FALSE], with nothing called and
    the queue untouched. *)
Theorem reserved_types_are_refused
    (t : MESSAGE_TYPE) (a : list byte) (s : State) :
  t = REGISTER_PERIODIC_DIGITAL_SAMPLING \/ t = RESERVED ->
  at_boundary s ->
  length a = BYTE_of_size (sizeof hdr (incoming_args t)) ->
  AppProtocolHandleIncoming hdr drv (byte_of_nat (type_code t) :: a) s
  = Ok false
      (log (Dispatched (memcpy (rx_msg s) 0 (byte_of_nat (type_code t) :: a)))
         (received (byte_of_nat (type_code t) :: a) s)).
Proof.
  intros Ht Hb Hlen.
  set (tg := byte_of_nat (type_code t)).
  assert (Htag : Byte.to_nat tg = type_code t)
    by apply to_nat_byte_of_nat, type_code_bound.
  assert (Htype : forall buf,
             type_of_code (msg_type (memcpy buf 0 (tg :: a))) = Some t).
  { intros buf. rewrite msg_type_memcpy, Htag. apply type_of_code_type_code. }
  rewrite <- (app_nil_r a) at 1.
  rewrite HandleIncoming_message; try assumption.
  - rewrite app_nil_r.
    apply (MessageDone_rejects hdr drv (received (tg :: a) s) t (Htype (rx_msg s))).
    destruct Ht as [-> | ->]; reflexivity.
  - rewrite Htag, incoming_entry, Hlen. reflexivity.
  - apply (IncomingVarArgSize_fixed hdr t); [apply Htype |].
    destruct Ht as [-> | ->]; discriminate.
Qed.

(** X9.  One dispatch, one action.  Whenever [MessageDone] returns, it has
    recorded the dispatch and then performed exactly one hardware action if it
    returns [TRUE] and none if it returns [FALSE]; it has sent at most two
    messages; and for a type that is not echoed it has sent none and left the
    queue as it was. *)
Theorem dispatch_acts_once (s : State) (b : bool) (s' : State) :
  MessageDone hdr drv s = Ok b s' ->
  exists t,
    trace s' = trace s ++ Dispatched (rx_msg s) :: t
    /\ actions t = (if b then 1 else 0)
    /\ length (sent_messages t) <= 2
    /\ (forall ty,
          type_of_code (msg_type (rx_msg s)) = Some ty ->
          is_echo_type ty = false ->
          sent_messages t = [] /\ tx_queue s' = tx_queue s).
Proof.
  intros H.
  unfold MessageDone, Echo, report_digital_in_status,
    report_uart_tx_status in H.
  run_in H; send_inv;
    eexists;
    (split;
     [ cbn [trace tx_queue bytes rx_msg sent log set_tx_queue];
       rewrite <- ?app_assoc; cbn [app]; reflexivity |]);
    cbn [actions sent_messages length];
    (split; [reflexivity |]);
    (split; [lia |]);
    intros ty Hty He;
    try discriminate Hty;
    injection Hty as <-; try discriminate He;
    split; reflexivity.
Qed.

End Dispatching.

(** X8 on a concrete chunk: the single byte 7 ([RESERVED], no arguments). *)
Lemma reserved_types_are_refused_witness :
  AppProtocolHandleIncoming Sample.header Sample.drivers
    (bytes_of [7]) Sample.idle
  = Ok false
      (log (Dispatched (bytes_of [7])) (received (bytes_of [7]) Sample.idle)).
Proof.
  apply (reserved_types_are_refused Sample.header Sample.drivers
           RESERVED [] Sample.idle).
  - right. reflexivity.
  - vm_compute. auto.
  - reflexivity.
Defined.

(** X9 on a concrete dispatch: a [SET_PWM_DUTY_CYCLE] sets the duty cycle and
    sends nothing. *)
Lemma dispatch_acts_once_witness :
  let s := received (bytes_of [9; 2; 3; 1]) Sample.idle in
  let s' := state_of (MessageDone Sample.header Sample.drivers s) power_on in
  trace s' = trace s ++ [Dispatched (bytes_of [9; 2; 3; 1]);
                         Called (SetPwmDutyCycle 2 3 1)]
  /\ exists t,
       trace s' = trace s ++ Dispatched (rx_msg s) :: t
       /\ actions t = 1
       /\ sent_messages t = [] /\ tx_queue s' = tx_queue s.
Proof.
  cbv zeta. split; [vm_compute; reflexivity |].
  set (s := received (bytes_of [9; 2; 3; 1]) Sample.idle).
  set (s' := state_of (MessageDone Sample.header Sample.drivers s) power_on).
  assert (H : MessageDone Sample.header Sample.drivers s = Ok true s')
    by (vm_compute; reflexivity).
  destruct (dispatch_acts_once Sample.header Sample.drivers s true s' H)
    as (t & Ht & Ha & _ & Hq).
  exists t. split; [exact Ht |]. split; [exact Ha |].
  apply (Hq SET_PWM_DUTY_CYCLE); [vm_compute |]; reflexivity.
Defined.

(** ** What is sent can be received *)

Lemma firstn_padding (l : list byte) (n : nat) :
  firstn n (l ++ repeat x00 (S n)) = firstn n (l ++ repeat x00 n).
Proof.
  change (S n) with (1 + n). rewrite Nat.add_comm, repeat_app, app_assoc.
  apply firstn_short_app.
  rewrite length_app, repeat_length. lia.
Qed.

Lemma read_bytes_cons (m : list byte) (n : nat) :
  read_bytes m 0 (S n) = nth 0 m x00 :: read_bytes m 1 n.
Proof.
  unfold read_bytes. destruct m as [| x m'].
  - cbn [skipn app nth]. reflexivity.
  - cbn [skipn app nth firstn]. f_equal. apply firstn_padding.
Qed.

Lemma byte_of_to_nat (b : byte) (n : nat) :
  Byte.to_nat b = n -> b = byte_of_nat n.
Proof.
  intros <-. unfold byte_of_nat. rewrite Byte.of_to_nat. reflexivity.
Qed.

Section RoundTrip.

Variable hdr : Header.
Variable drv : Drivers.

(** X10.  An echo decodes to the message it echoes.  For a message of an
    echoed type held in [rx_msg], what [Echo] sends is the tag followed by the
    argument block; fed to the decoder from between two messages, these bytes
    are received as one whole message, dispatched on their last byte, with the
    same tag and the same value for every member of the argument
    structure. *)
Theorem echo_decodes_to_the_message
    (t : MESSAGE_TYPE) (s s2 : State) :
  let m := rx_msg s in
  let echo := read_bytes m 0 (S (sizeof hdr (incoming_args t))) in
  type_of_code (msg_type m) = Some t ->
  is_echo_type t = true ->
  sizeof hdr (incoming_args t) < 255 ->
  at_boundary s2 ->
  (forall u s', Echo hdr s = Ok u s' -> s' = sent echo s)
  /\ AppProtocolHandleIncoming hdr drv echo s2
     = MessageDone hdr drv (received echo s2)
  /\ msg_type (rx_msg (received echo s2)) = msg_type m
  /\ forall f,
       field_struct f = incoming_args t ->
       msg_field hdr f (rx_msg (received echo s2)) = msg_field hdr f m.
Proof.
  intros m echo Ht Hecho Hsize Hb.
  pose proof (type_of_code_inv _ _ Ht) as Hcode.
  set (n := sizeof hdr (incoming_args t)) in *.
  set (a := read_bytes m 1 n).
  assert (Hla : length a = n) by apply read_bytes_length.
  assert (He : echo = nth 0 m x00 :: a) by apply read_bytes_cons.
  split; [| split; [| split]].
  - intros u s' H. unfold Echo, bind, get in H.
    apply AppProtocolSendMessage_inv in H.
    destruct H as (x & Hx & -> & _).
    fold m in Hx. rewrite Hcode, (outgoing_entry_echo hdr t Hecho) in Hx.
    injection Hx as <-. fold n. rewrite (echo_length _ Hsize). reflexivity.
  - rewrite He. rewrite <- (app_nil_r a) at 1.
    rewrite HandleIncoming_message; try assumption.
    + rewrite app_nil_r. reflexivity.
    + change (Byte.to_nat (nth 0 m x00)) with (msg_type m).
      rewrite Hcode, incoming_entry, Hla. f_equal.
      apply Nat.mod_small. fold n. lia.
    + apply (IncomingVarArgSize_fixed hdr t).
      * rewrite msg_type_memcpy. exact Ht.
      * intros ->. discriminate.
  - rewrite He. reflexivity.
  - intros f Hf. rewrite He. unfold msg_field, received.
    cbn [rx_msg decoder_at]. rewrite memcpy_head, Hf. fold n.
    rewrite <- Hla at 1. rewrite read_bytes_args. reflexivity.
Qed.

(** X11.  A message with a variable trailer is sent in one piece, and an
    outgoing [UART_DATA] is framed as an incoming one.
    [AppProtocolSendMessageWithVarArg], when it returns, has appended the
    header of the message and then the data, back to back, within the
    capacity of the queue.  If the message is a [UART_DATA] whose size member
    is the data length minus one, what it appended is a message framed as the
    incoming tables say, so that the decoder of this file would take it
    whole. *)
Theorem var_arg_message_is_one_piece
    (msg data : list byte) (s : State) (u : unit) (s' : State) :
  AppProtocolSendMessageWithVarArg hdr msg data s = Ok u s' ->
  exists n,
    nth_error (outgoing_arg_size hdr) (msg_type msg) = Some n
    /\ bytes (tx_queue s')
       = bytes (tx_queue s) ++ read_bytes msg 0 ((1 + n) mod 256) ++ data
    /\ read_cursor (tx_queue s') = read_cursor (tx_queue s)
    /\ length (bytes (tx_queue s')) <= capacity
    /\ trace s' = trace s ++ [Sent (read_bytes msg 0 ((1 + n) mod 256) ++ data)]
    /\ (msg_type msg = type_code UART_DATA ->
        sizeof hdr UART_DATA_ARGS < 255 ->
        Z.of_nat (length data) = (msg_field hdr uart_data_size msg + 1)%Z ->
        length data < 256 ->
        let wire := {| tag := x0c;
                       args := read_bytes msg 1 (sizeof hdr UART_DATA_ARGS);
                       trailer := data |} in
        well_framed hdr wire = true
        /\ read_bytes msg 0 ((1 + n) mod 256) ++ data = message_bytes wire).
Proof.
  unfold AppProtocolSendMessageWithVarArg, OutgoingMessageLength, table_read.
  intros H.
  destruct (nth_error (outgoing_arg_size hdr) (msg_type msg)) as [n |] eqn:En;
    [| discriminate].
  unfold bind, ret, modify in H.
  set (header := read_bytes msg 0 ((1 + n) mod 256)) in *.
  destruct (push header s) as [[] s1 |] eqn:E1; [| discriminate].
  destruct (push data s1) as [[] s2 |] eqn:E2; [| discriminate].
  injection H as _ <-.
  apply push_inv in E1. destruct E1 as [-> _].
  apply push_inv in E2. destruct E2 as [-> Hfit].
  cbn [tx_queue set_tx_queue bytes read_cursor trace log] in *.
  exists n. split; [reflexivity |].
  split; [symmetry; apply app_assoc |].
  split; [reflexivity |].
  split; [rewrite length_app; exact Hfit |].
  split; [reflexivity |].
  intros Hty Hsz Hlen Hsmall. cbv zeta.
  set (wire := {| tag := x0c;
                  args := read_bytes msg 1 (sizeof hdr UART_DATA_ARGS);
                  trailer := data |}).
  rewrite Hty in En. change (type_code UART_DATA) with 12 in En.
  assert (Ho : nth_error (outgoing_arg_size hdr) 12
               = Some (BYTE_of_size (sizeof hdr UART_DATA_ARGS))) by reflexivity.
  assert (Hn : n = BYTE_of_size (sizeof hdr UART_DATA_ARGS)) by congruence.
  assert (Hhead : header = x0c :: read_bytes msg 1 (sizeof hdr UART_DATA_ARGS)).
  { unfold header. rewrite Hn, (echo_length _ Hsz), read_bytes_cons.
    f_equal. apply (byte_of_to_nat _ 12). exact Hty. }
  split.
  - unfold well_framed, wire. cbn [tag args trailer].
    change (Byte.to_nat x0c) with (type_code UART_DATA).
    rewrite incoming_entry, type_of_code_type_code. cbn [incoming_args].
    rewrite read_bytes_length.
    unfold BYTE_of_size. rewrite Nat.mod_small by lia.
    rewrite !Nat.eqb_refl. cbn [andb].
    rewrite andb_true_r. apply Nat.eqb_eq.
    unfold trailer_length.
    change (Byte.to_nat x0c) with (type_code UART_DATA).
    rewrite type_of_code_type_code.
    unfold msg_field in Hlen. cbn [field_struct] in Hlen.
    rewrite <- Hlen, Z.mod_small by lia.
    symmetry. apply Nat2Z.id.
  - fold header. rewrite Hhead. reflexivity.
Qed.

End RoundTrip.

(** X10 on the echo of [SET_PIN_DIGITAL_OUT, pin=3, value=1, open_drain=0]. *)
Lemma echo_decodes_to_the_message_witness :
  let s := received (bytes_of [2; 3; 1; 0]) Sample.idle in
  AppProtocolHandleIncoming Sample.header Sample.drivers
    (bytes_of [2; 3; 1; 0]) Sample.connected
  = MessageDone Sample.header Sample.drivers
      (received (bytes_of [2; 3; 1; 0]) Sample.connected)
  /\ msg_field Sample.header set_pin_digital_out_pin
       (rx_msg (received (bytes_of [2; 3; 1; 0]) Sample.connected))
     = msg_field Sample.header set_pin_digital_out_pin (rx_msg s).
Proof.
  cbv zeta.
  set (s := received (bytes_of [2; 3; 1; 0]) Sample.idle).
  assert (H1 : type_of_code (msg_type (rx_msg s)) = Some SET_PIN_DIGITAL_OUT)
    by (vm_compute; reflexivity).
  assert (H2 : sizeof Sample.header (incoming_args SET_PIN_DIGITAL_OUT) < 255)
    by (cbn; lia).
  assert (H3 : at_boundary Sample.connected) by (vm_compute; auto).
  destruct (echo_decodes_to_the_message Sample.header Sample.drivers
              SET_PIN_DIGITAL_OUT s Sample.connected H1 eq_refl H2 H3)
    as (_ & Hrun & _ & Hf).
  split; [exact Hrun | exact (Hf set_pin_digital_out_pin eq_refl)].
Defined.

(** X11 on an outgoing [UART_DATA] for uart 1 carrying two bytes. *)
Lemma var_arg_message_is_one_piece_witness :
  let msg := bytes_of [12; 1; 1] in
  let data := bytes_of [104; 105] in
  let s' := state_of (AppProtocolSendMessageWithVarArg Sample.header msg data
                        Sample.idle) power_on in
  bytes (tx_queue s') = bytes_of [12; 1; 1; 104; 105]
  /\ well_framed Sample.header
       {| tag := x0c; args := bytes_of [1; 1]; trailer := data |} = true.
Proof.
  cbv zeta. split; [vm_compute; reflexivity |].
  set (msg := bytes_of [12; 1; 1]).
  set (data := bytes_of [104; 105]).
  set (s' := state_of (AppProtocolSendMessageWithVarArg Sample.header msg data
                         Sample.idle) power_on).
  assert (H : AppProtocolSendMessageWithVarArg Sample.header msg data Sample.idle
              = Ok tt s') by (vm_compute; reflexivity).
  destruct (var_arg_message_is_one_piece Sample.header msg data Sample.idle tt s' H)
    as (n & _ & _ & _ & _ & _ & Hw).
  destruct Hw as [Hwf _].
  - reflexivity.
  - cbn. lia.
  - vm_compute. reflexivity.
  - cbn. lia.
  - exact Hwf.
Defined.

(** ** When a message is dispatched, and what an uninitialised decoder does *)

Section Completion.

Variable hdr : Header.
Variable drv : Drivers.

(** After the tag and the arguments, with a trailer to come. *)
Lemma HandleIncoming_tag_args (tg : byte) (a : list byte) (v : nat) (s : State) :
  at_boundary s ->
  nth_error (incoming_arg_size hdr) (Byte.to_nat tg) = Some (length a) ->
  IncomingVarArgSize hdr (memcpy (rx_msg s) 0 (tg :: a)) = v ->
  v <> 0 ->
  AppProtocolHandleIncoming hdr drv (tg :: a) s
  = Ok true (decoder_at WAIT_VAR_ARGS v (S (length a))
               (memcpy (rx_msg s) 0 (tg :: a)) s).
Proof.
  intros Hb Hn Hv Hv0.
  apply Nat.eqb_neq in Hv0.
  rewrite (at_boundary_decoder_at s Hb) at 1.
  set (m := rx_msg s) in *.
  change (tg :: a) with ([tg] ++ a) at 1.
  rewrite HandleIncoming_app.
  change 1 with (length [tg]) at 1.
  rewrite HandleIncoming_exact by discriminate.
  unfold change_state, bind, get. cbn [rx_message_state decoder_at].
  rewrite (case_WAIT_TYPE_at hdr drv WAIT_TYPE 0 (0 + length [tg]) (length a)
             (memcpy m 0 [tg]) s Hn).
  assert (Hm1 : forall l, memcpy (memcpy m 0 [tg]) 1 l = memcpy m 0 (tg :: l)).
  { intros l. exact (memcpy_app m 0 [tg] l). }
  cbn [length Nat.add].
  destruct a as [| y a'].
  - cbn [length Nat.eqb] in *.
    rewrite case_WAIT_ARGS_at, Hv, Hv0. reflexivity.
  - set (a := y :: a') in *.
    assert (Hla : (length a =? 0) = false) by reflexivity.
    rewrite Hla. cbn [and_then].
    rewrite HandleIncoming_exact by discriminate.
    unfold change_state, bind, get. cbn [rx_message_state decoder_at].
    rewrite case_WAIT_ARGS_at, Hm1, Hv, Hv0. reflexivity.
Qed.

(** After the tag alone, with arguments to come. *)
Lemma HandleIncoming_tag (tg : byte) (n : nat) (s : State) :
  at_boundary s ->
  nth_error (incoming_arg_size hdr) (Byte.to_nat tg) = Some n ->
  n <> 0 ->
  AppProtocolHandleIncoming hdr drv [tg] s
  = Ok true (decoder_at WAIT_ARGS n 1 (memcpy (rx_msg s) 0 [tg]) s).
Proof.
  intros Hb Hn Hn0. apply Nat.eqb_neq in Hn0.
  rewrite (at_boundary_decoder_at s Hb) at 1.
  change 1 with (length [tg]) at 1.
  rewrite HandleIncoming_exact by discriminate.
  unfold change_state, bind, get. cbn [rx_message_state decoder_at].
  rewrite (case_WAIT_TYPE_at hdr drv WAIT_TYPE 0 (0 + length [tg]) n
             (memcpy (rx_msg s) 0 [tg]) s Hn).
  rewrite Hn0. reflexivity.
Qed.

(** X13.  A message is dispatched on its last byte and not before.  Cut a
    well-framed message anywhere short of its end: fed from between two
    messages, the first part makes the call return [TRUE] having dispatched
    nothing, called nothing and queued nothing, and the call on the second
    part is the dispatch of the whole message. *)
Theorem message_completes_on_last_byte
    (m : Message) (p q : list byte) (s : State) :
  well_framed hdr m = true ->
  at_boundary s ->
  message_bytes m = p ++ q ->
  q <> [] ->
  exists s1,
    AppProtocolHandleIncoming hdr drv p s = Ok true s1
    /\ trace s1 = trace s
    /\ tx_queue s1 = tx_queue s
    /\ AppProtocolHandleIncoming hdr drv q s1
       = MessageDone hdr drv (received (message_bytes m) s).
Proof.
  intros Hwf Hb Heq Hq.
  destruct (well_framed_inv hdr m Hwf) as [Hn Hv].
  assert (Hwhole : AppProtocolHandleIncoming hdr drv (p ++ q) s
                   = MessageDone hdr drv (received (message_bytes m) s)).
  { rewrite <- Heq. unfold message_bytes.
    apply HandleIncoming_message; [exact Hb | exact Hn | apply Hv]. }
  assert (Hfirst : exists s1,
    AppProtocolHandleIncoming hdr drv p s = Ok true s1
    /\ trace s1 = trace s /\ tx_queue s1 = tx_queue s).
  { unfold message_bytes in Heq.
    destruct p as [| x p'].
    { exists s. repeat split. }
    cbn [app] in Heq. injection Heq as Hx Hrest. subst x.
    set (tg := tag m) in *. set (a := args m) in *. set (tr := trailer m) in *.
    assert (Hlate : forall l,
      p' = a ++ l -> tr = l ++ q ->
      exists s1,
        AppProtocolHandleIncoming hdr drv (tg :: p') s = Ok true s1
        /\ trace s1 = trace s /\ tx_queue s1 = tx_queue s).
    { intros l -> Htr.
      assert (Hlt : length l < length tr).
      { rewrite Htr, length_app. destruct q; [congruence | cbn; lia]. }
      change (tg :: a ++ l) with ((tg :: a) ++ l).
      rewrite HandleIncoming_app.
      rewrite (HandleIncoming_tag_args tg a (length tr) s Hb Hn (Hv (rx_msg s)))
        by lia.
      cbn [and_then].
      rewrite HandleIncoming_partial by exact Hlt.
      eexists. repeat split. }
    destruct (app_eq_app _ _ _ _ Hrest) as [l [[Ha Hql] | [Hp Htr]]].
    - destruct l as [| y l'].
      + apply (Hlate []).
        * rewrite app_nil_r in *. symmetry. exact Ha.
        * cbn in Hql. subst q. reflexivity.
      + (* the cut falls inside the arguments *)
        assert (Hlt : length p' < length a).
        { rewrite Ha, length_app. cbn. lia. }
        change (tg :: p') with ([tg] ++ p').
        rewrite HandleIncoming_app.
        rewrite (HandleIncoming_tag tg (length a) s Hb Hn) by lia.
        cbn [and_then].
        rewrite HandleIncoming_partial by exact Hlt.
        eexists. repeat split.
    - exact (Hlate l Hp Htr). }
  destruct Hfirst as (s1 & H1 & Ht & Hq1).
  exists s1. repeat split; try assumption.
  rewrite HandleIncoming_app, H1 in Hwhole. exact Hwhole.
Qed.

(** X12.  Without [AppProtocolInit] the decoder takes no tag.  With nothing
    awaited, as on a device just powered on, a call does not read a tag from
    its input: its first turn copies no byte and takes the transition for
    the tag that [rx_msg] already holds, so that the input is filed as the
    arguments of that type, at the cursor as it stands, which at power-on is
    offset 0, over the tag itself. *)
Theorem uninitialised_decoder_takes_no_tag
    (data : list byte) (n : nat) (s : State) :
  rx_message_state s = WAIT_TYPE ->
  rx_message_remaining s = 0 ->
  nth_error (incoming_arg_size hdr) (msg_type (rx_msg s)) = Some n ->
  n <> 0 ->
  data <> [] ->
  AppProtocolHandleIncoming hdr drv data s
  = AppProtocolHandleIncoming hdr drv data
      (decoder_at WAIT_ARGS n (rx_buffer_cursor s) (rx_msg s) s).
Proof.
  intros Hst Hrem Hn Hn0 Hne. apply Nat.eqb_neq in Hn0.
  rewrite (HandleIncoming_step hdr drv data s Hne). cbv zeta.
  rewrite Hrem. cbn [Nat.min firstn skipn].
  rewrite advance_nil, Hrem. cbn [Nat.eqb].
  rewrite (state_as_decoder_at s) at 1.
  unfold change_state, bind, get. cbn [rx_message_state decoder_at].
  rewrite Hst.
  rewrite (case_WAIT_TYPE_at hdr drv WAIT_TYPE (rx_message_remaining s)
             (rx_buffer_cursor s) n (rx_msg s) s Hn).
  rewrite Hn0. reflexivity.
Qed.

End Completion.

(** X13 on [UART_DATA, uart=0, size=2, data=[a,b,c]] cut after its second
    data byte. *)
Lemma message_completes_on_last_byte_witness :
  let m := {| tag := x0c; args := bytes_of [0; 2];
              trailer := bytes_of [97; 98; 99] |} in
  exists s1,
    AppProtocolHandleIncoming Sample.header Sample.drivers
      (bytes_of [12; 0; 2; 97; 98]) Sample.idle = Ok true s1
    /\ trace s1 = trace Sample.idle
    /\ tx_queue s1 = tx_queue Sample.idle
    /\ AppProtocolHandleIncoming Sample.header Sample.drivers (bytes_of [99]) s1
       = MessageDone Sample.header Sample.drivers
           (received (message_bytes m) Sample.idle).
Proof.
  apply (message_completes_on_last_byte Sample.header Sample.drivers
           {| tag := x0c; args := bytes_of [0; 2];
              trailer := bytes_of [97; 98; 99] |}
           (bytes_of [12; 0; 2; 97; 98]) (bytes_of [99]) Sample.idle).
  - vm_compute. reflexivity.
  - vm_compute. auto.
  - reflexivity.
  - discriminate.
Defined.

(** X12 on a device just powered on: four bytes are filed as the magic of a
    [HARD_RESET] at offset 0, and what is dispatched is the message their
    first byte names, here a [SOFT_RESET]. *)
Lemma uninitialised_decoder_takes_no_tag_witness :
  AppProtocolHandleIncoming Sample.header Sample.drivers
    (bytes_of [1; 2; 3; 4]) power_on
  = AppProtocolHandleIncoming Sample.header Sample.drivers
      (bytes_of [1; 2; 3; 4]) (decoder_at WAIT_ARGS 4 0 [] power_on)
  /\ dispatched
       (trace (state_of (AppProtocolHandleIncoming Sample.header Sample.drivers
                           (bytes_of [1; 2; 3; 4]) power_on) power_on))
     = [bytes_of [1; 2; 3; 4]].
Proof.
  split; [| vm_compute; reflexivity].
  apply (uninitialised_decoder_takes_no_tag Sample.header Sample.drivers
           (bytes_of [1; 2; 3; 4]) 4 power_on).
  - reflexivity.
  - reflexivity.
  - reflexivity.
  - discriminate.
  - discriminate.
Defined.

(** ** Chunking, for streams that fail as well *)

Section Chunking.

Variable hdr : Header.
Variable drv : Drivers.

(** X3.  Chunking is not observable, even on a stream that fails.  For a
    caller that stops feeding at the first [FALSE], any two ways of cutting
    the same byte stream into chunks give the same result and the same final
    state, which are those of one call on the whole stream: the same
    messages dispatched, the same [FALSE] at the same message if one is
    refused, the same undefined behaviour if one is reached. *)
Theorem chunking_is_unobservable (c1 c2 : list (list byte)) (s : State) :
  concat c1 = concat c2 ->
  feed_chunks hdr drv c1 s = feed_chunks hdr drv c2 s
  /\ feed_chunks hdr drv c1 s
     = AppProtocolHandleIncoming hdr drv (concat c1) s.
Proof.
  intros H. split.
  - rewrite !feed_chunks_concat, H. reflexivity.
  - apply feed_chunks_concat.
Qed.

End Chunking.

(** X3 on a stream whose second message is refused: a [SOFT_RESET], a
    [HARD_RESET] with a wrong magic, a [SOFT_RESET] that is never reached. *)
Lemma chunking_is_unobservable_witness :
  let c1 := [bytes_of [1; 0; 9]; bytes_of [9; 9; 9; 1]] in
  let c2 := [bytes_of [1]; bytes_of [0]; bytes_of [9; 9; 9]; bytes_of [9]; bytes_of [1]] in
  feed_chunks Sample.header Sample.drivers c1 Sample.idle
  = feed_chunks Sample.header Sample.drivers c2 Sample.idle
  /\ feed_chunks Sample.header Sample.drivers c1 Sample.idle
     = AppProtocolHandleIncoming Sample.header Sample.drivers
         (concat c1) Sample.idle.
Proof.
  apply (chunking_is_unobservable Sample.header Sample.drivers
           [bytes_of [1; 0; 9]; bytes_of [9; 9; 9; 1]]
           [bytes_of [1]; bytes_of [0]; bytes_of [9; 9; 9]; bytes_of [9];
            bytes_of [1]] Sample.idle).
  reflexivity.
Defined.

(** ** A valid message is accepted when there is room *)

Section Acceptance.

Variable hdr : Header.
Variable drv : Drivers.




End Acceptance.

